(** * BBS: registry, replication merge, election reply, Berkeley offsets

    A shallow embedding of the coordination plane of the BBS messaging
    servers (src/python) and the properties of its specification.

    Conventions of the embedding.
    - A Python dict with string keys is a [gmap string _]; a Python set is
      a [gset].  Iteration order of a dict is not modelled: no property
      below depends on it.
    - Python numbers are exact rationals [Qc] (every finite float and every
      int is one, and Python's [==] on numbers is equality of the rational).
      NaN and the infinities are outside the model.  The arithmetic of the
      model is exact, as Python's is on ints.  On floats Python rounds to
      binary64: [x + 1] is [x] itself from 2^53 on, and a sum or a mean of
      floats is the nearest float.  The further properties that state the
      value of a result therefore say where they hold: those about Lamport
      clocks, for counters that are integers up to 2^53
      ([LamportClock.headroom]), on which [+ 1] is exact for an int and for
      a float alike; and the Berkeley round, whose numbers are floats
      throughout, takes its arithmetic as a parameter
      ([BerkeleyRound.arithmetic]), the exact one being one instance.
    - [time.time()] is an input: every handler takes the instant [now] it
      reads.
    - An exception is a result of its own ([None], or [Raise e]), never a
      stuck term. *)

From stdpp Require Import gmap strings list fin_maps sorting.
From Stdlib Require Import QArith Qcanon.

#[local] Set Warnings "-clear-no-such-hyp".

Local Open Scope Qc_scope.
Local Open Scope Z_scope.

(** ** Python values and dictionaries *)

(** The scalars that the modelled dictionaries hold. *)
Inductive value :=
  | VNum (q : Qc)
  | VStr (s : string).

Global Instance value_eq_dec : EqDecision value.
Proof. solve_decision. Defined.

Global Instance value_countable : Countable value.
Proof.
  refine (inj_countable'
            (λ v, match v with VNum q => inl q | VStr s => inr s end)
            (λ x, match x with inl q => VNum q | inr s => VStr s end) _).
  by intros [].
Defined.

Definition VInt (n : Z) : value := VNum (Qc_of_Z n).

Abbreviation dict := (gmap string value).

(** [d.get(k, default)] *)
Definition dict_get (d : dict) (k : string) (default : value) : value :=
  match d !! k with
  | Some v => v
  | None => default
  end.

(** Python truthiness: [0] and [''] are false. *)
Definition truthy (v : value) : bool :=
  match v with
  | VNum q => bool_decide (q ≠ 0%Qc)
  | VStr s => bool_decide (s ≠ "")
  end.

(** ** common_utils/logical_clock.py *)

Module LogicalClock.

(** The counter is a Python number: it starts at the int [0], and
    [update] takes whatever number the message carried.  The [+ 1] below
    is exact: it is that of Python on an int, and on a float whose value
    is an integer up to 2^53. *)
Record t := Make { counter : Qc }.

Definition init : t := Make 0%Qc.

(** [max(a, b)] on two numbers: the first of the largest. *)
Definition py_max (a b : Qc) : Qc :=
  if bool_decide (a < b)%Qc then b else a.

Definition increment (c : t) : Qc * t :=
  let n := (counter c + 1)%Qc in (n, Make n).

Definition update (c : t) (received_time : Qc) : Qc * t :=
  let n := (py_max (counter c) received_time + 1)%Qc in (n, Make n).

Definition get_time (c : t) : Qc := counter c.

End LogicalClock.

(** ** common_utils/persistence.py *)

Module DataStore.

(** What [json.load] can return, and what callers pass as [default]. *)
#[warnings="-register-all"]
Inductive pyobj :=
  | PyNone
  | PyVal (v : value)
  | PyDict (d : dict)
  | PyList (l : list pyobj).

(** The exceptions that opening and decoding a file can raise.
    [UnicodeDecodeError] is a [ValueError] that is neither a
    [json.JSONDecodeError] nor an [IOError]. *)
Inductive exn :=
  | JSONDecodeError
  | IOError
  | UnicodeDecodeError.

Inductive result (A : Type) :=
  | Ret (a : A)
  | Raise (e : exn).
Arguments Ret {A} a.
Arguments Raise {A} e.

(** A file of the data directory, by what [open] followed by [json.load]
    does on it: it decodes to a document, or raises. *)
Inductive file :=
  | Document (doc : pyobj)
  | Undecodable (e : exn).

(** The data directory: the files that exist. *)
Abbreviation disk := (gmap string file).

(** [default if default is not None else []] *)
Definition default_or_empty (default : pyobj) : pyobj :=
  match default with
  | PyNone => PyList []
  | _ => default
  end.

(** [except (json.JSONDecodeError, IOError)] *)
Definition caught (e : exn) : bool :=
  match e with
  | JSONDecodeError | IOError => true
  | UnicodeDecodeError => false
  end.

Definition load (fs : disk) (filename : string) (default : pyobj)
  : result pyobj :=
  match fs !! filename with
  | None => Ret (default_or_empty default)
  | Some (Document doc) => Ret doc
  | Some (Undecodable e) =>
      if caught e then Ret (default_or_empty default) else Raise e
  end.

End DataStore.

(** ** common_utils/messaging.py *)

Module Messaging.

(** *** [create_response]

    The response data holds [status], [timestamp], [clock], the
    [description] when it is a non-empty string, and then the handler's
    own fields [data] (kept here as a typed payload: no handler passes a
    key that [update] would overwrite). *)
Record response (P : Type) := Response {
  r_service : string;
  r_status : string;
  r_timestamp : Qc;
  r_clock : Qc;
  r_description : option string;
  r_data : P
}.
Arguments Response {P}.
Arguments r_service {P}.
Arguments r_status {P}.
Arguments r_timestamp {P}.
Arguments r_clock {P}.
Arguments r_description {P}.
Arguments r_data {P}.

Definition create_response {P} (service status : string) (data : P)
    (logical_clock : LogicalClock.t) (now : Qc)
    (description : option string) : response P * LogicalClock.t :=
  let '(clock_value, logical_clock) :=
    LogicalClock.increment logical_clock in
  (Response service status now clock_value
     (match description with
      | Some d => if bool_decide (d ≠ "") then Some d else None
      | None => None
      end)
     data,
   logical_clock).

(** *** [create_message]

    The argument [data] is a reference to the caller's dictionary: the
    two assignments write through it.  The world holds the dictionaries
    by address, the sender's Lamport clock and the wall clock. *)
Abbreviation loc := positive.

Record world := World {
  heap : gmap loc dict;
  clock : LogicalClock.t;
  wall : Qc
}.

(** State and failure: [None] is a dangling reference. *)
Definition M (A : Type) : Type := world → option (A * world).

Global Instance M_ret : MRet M := λ A a w, Some (a, w).

Global Instance M_bind : MBind M := λ A B k m w,
  match m w with
  | Some (a, w') => k a w'
  | None => None
  end.

(** [logical_clock.increment()] *)
Definition clock_increment : M Qc :=
  λ w, let '(n, c) := LogicalClock.increment (clock w) in
       Some (n, World (heap w) c (wall w)).

(** [time.time()] *)
Definition time_time : M Qc := λ w, Some (wall w, w).

(** [data[k] = v] *)
Definition setitem (data : loc) (k : string) (v : value) : M unit :=
  λ w, match heap w !! data with
       | Some d =>
           Some (tt, World (<[data := <[k := v]> d]> (heap w))
                       (clock w) (wall w))
       | None => None
       end.

(** The bytes of [msgpack.packb({'service': .., 'data': data})], as the
    map they decode to: packing reads the dictionary behind [data]. *)
Record envelope := Envelope {
  service : string;
  data : dict
}.

Definition packb (service : string) (data : loc) : M envelope :=
  λ w, match heap w !! data with
       | Some d => Some (Envelope service d, w)
       | None => None
       end.

Definition create_message (service : string) (data : loc) : M envelope :=
  clock_value ← clock_increment;
  now ← time_time;
  setitem data "timestamp" (VNum now);;
  setitem data "clock" (VNum clock_value);;
  packb service data.

End Messaging.

(** ** reference_server/reference_server.py *)

Module ReferenceServer.

Definition HEARTBEAT_TIMEOUT : Qc := Qc_of_Z 30.

(** [{'rank': int, 'last_heartbeat': float}] *)
Record info := Info {
  rank : Z;
  last_heartbeat : Qc
}.

(** The document [_save_state] writes to [reference.json].  JSON writes
    the keys of [servers] as strings, so that the roster read back is the
    one written when the names are strings: the properties about a
    restart are stated for such names. *)
Record snapshot := Snapshot {
  snap_servers : gmap value info;
  snap_next_rank : Z;
  snap_timestamp : Qc
}.

(** The lines the registry prints about the roster. *)
Inductive line :=
  | NovoServidor (user : value) (rank : Z)
  | ViaHeartbeat (user : value) (rank : Z)
  | Removendo (name : value).

Record t := Registry {
  servers : gmap value info;
  next_rank : Z;
  clock : LogicalClock.t;
  reference_json : option snapshot;
  stdout : list line
}.

(** [__init__] when no [reference.json] exists. *)
Definition init : t := Registry ∅ 1 LogicalClock.init None [].

(** [__init__] of a new process on the [reference.json] that the last one
    left: the roster and the next rank are those of the file, with every
    heartbeat reset to [now]. *)
Definition _load_state (now : Qc) (file : option snapshot) : t :=
  match file with
  | Some data =>
      Registry ((λ i, Info (rank i) now) <$> snap_servers data)
        (snap_next_rank data) LogicalClock.init file []
  | None => init
  end.

Definition _save_state (now : Qc) (st : t) : t :=
  Registry (servers st) (next_rank st) (clock st)
    (Some (Snapshot (servers st) (next_rank st) now)) (stdout st).

(** [current_time - info['last_heartbeat'] > HEARTBEAT_TIMEOUT] *)
Definition expired (now : Qc) (i : info) : bool :=
  bool_decide (HEARTBEAT_TIMEOUT < now - last_heartbeat i)%Qc.

Definition _cleanup_inactive_servers (now : Qc) (st : t) : t :=
  let inactive :=
    (filter (λ ni, expired now ni.2 = true) (map_to_list (servers st))).*1 in
  let st :=
    Registry (foldr delete (servers st) inactive) (next_rank st) (clock st)
      (reference_json st) (stdout st ++ (Removendo <$> inactive)) in
  match inactive with
  | [] => st
  | _ => _save_state now st
  end.

(** The fields a handler adds to its response. *)
Inductive payload :=
  | NoData
  | RankData (rank : Z)
  | ListData (list : list (value * Z)).

Abbreviation response := (Messaging.response payload).

Definition reply (service status : string) (data : payload)
    (description : option string) (now : Qc) (st : t) : response * t :=
  let '(r, c) :=
    Messaging.create_response service status data (clock st) now
      description in
  (r, Registry (servers st) (next_rank st) c (reference_json st)
        (stdout st)).

Definition handle_rank_request (data : dict) (now : Qc) (st : t)
  : response * t :=
  let user := dict_get data "user" (VStr "") in
  if negb (truthy user) then
    reply "rank" "erro" NoData (Some "Nome do servidor não fornecido")
      now st
  else
    let '(rank, st) :=
      match servers st !! user with
      | Some i =>
          (rank i,
           Registry (<[user := Info (rank i) now]> (servers st))
             (next_rank st) (clock st) (reference_json st) (stdout st))
      | None =>
          let rank := next_rank st in
          (rank,
           Registry (<[user := Info rank now]> (servers st))
             (next_rank st + 1) (clock st) (reference_json st)
             (stdout st ++ [NovoServidor user rank]))
      end in
    let st := _save_state now st in
    reply "rank" "sucesso" (RankData rank) None now st.

Definition handle_list_request (data : dict) (now : Qc) (st : t)
  : response * t :=
  let server_list :=
    (λ ni : value * info, (ni.1, rank ni.2)) <$> map_to_list (servers st) in
  reply "list" "sucesso" (ListData server_list) None now st.

Definition handle_heartbeat (data : dict) (now : Qc) (st : t)
  : response * t :=
  let user := dict_get data "user" (VStr "") in
  if negb (truthy user) then
    reply "heartbeat" "erro" NoData (Some "Nome do servidor não fornecido")
      now st
  else
    let st :=
      match servers st !! user with
      | Some i =>
          Registry (<[user := Info (rank i) now]> (servers st))
            (next_rank st) (clock st) (reference_json st) (stdout st)
      | None =>
          let rank := next_rank st in
          Registry (<[user := Info rank now]> (servers st))
            (next_rank st + 1) (clock st) (reference_json st)
            (stdout st ++ [ViaHeartbeat user rank])
      end in
    reply "heartbeat" "sucesso" NoData None now st.

(** One turn of the loop of [run] on a parsed message: the clock is
    updated from the message, then the service is dispatched.  [None]:
    [max] of a number and a string raises, and the loop ends. *)
Definition serve (service : string) (data : dict) (now : Qc) (st : t)
  : option (response * t) :=
  match dict_get data "clock" (VInt 0) with
  | VStr _ => None
  | VNum received_clock =>
      let st :=
        Registry (servers st) (next_rank st)
          (LogicalClock.update (clock st) received_clock).2
          (reference_json st) (stdout st) in
      Some (if bool_decide (service = "rank") then
              handle_rank_request data now st
            else if bool_decide (service = "list") then
              handle_list_request data now st
            else if bool_decide (service = "heartbeat") then
              handle_heartbeat data now st
            else
              reply service "erro" NoData
                (Some ("Serviço desconhecido: " +:+ service)) now st)
  end.

(** What happens to a registry: a message arrives, or the cleanup thread
    wakes up. *)
Inductive event :=
  | Message (service : string) (data : dict) (now : Qc)
  | Cleanup (now : Qc).

(** The exchanges of a run: each message with its response.  A run stops
    at the message that ends the loop. *)
Fixpoint run (evs : list event) (st : t)
  : list (string * dict * response) * t :=
  match evs with
  | [] => ([], st)
  | Cleanup now :: evs => run evs (_cleanup_inactive_servers now st)
  | Message service data now :: evs =>
      match serve service data now st with
      | None => ([], st)
      | Some (r, st) =>
          let '(tr, st) := run evs st in ((service, data, r) :: tr, st)
      end
  end.

(** The registrations printed so far, oldest first. *)
Definition registrations (out : list line) : list (value * Z) :=
  omap (λ l, match l with
             | NovoServidor u r | ViaHeartbeat u r => Some (u, r)
             | Removendo _ => None
             end) out.

(** The invariant of the roster [m], the next rank [n] and the
    registrations [regs] printed so far: the ranks printed are 1, 2, ...
    in this order, [n] is the rank after them, and a server of the roster
    holds the rank printed at one of its registrations. *)
Definition inv_on (m : gmap value info) (n : Z) (regs : list (value * Z))
  : Prop :=
  regs.*2 = seqZ 1 (Z.of_nat (length regs))
  ∧ n = 1 + Z.of_nat (length regs)
  ∧ ∀ u i, m !! u = Some i → (u, rank i) ∈ regs.

Definition roster_inv (st : t) : Prop :=
  inv_on (servers st) (next_rank st) (registrations (stdout st)).


End ReferenceServer.

(** ** server/replication_manager.py *)

Module ReplicationManager.

(** The three files of the data directory that replication reads and
    rewrites, each as [datastore.load(file, default=[])] returns it (a
    missing or unparsable file reads as the empty list).  The files are
    lists of objects, as this program writes them, and [datastore.save]
    replaces a file whole. *)
Record store := Store {
  logins_json : list dict;
  channels_json : list dict;
  messages_json : list dict
}.

(** The loop that the three merges share: a record whose key is absent
    from [existing_keys] is appended and its key recorded; a record
    without a key ([None]) is skipped. *)
Fixpoint add_new `{Countable K} (key : dict → option K)
    (new : list dict) (existing : list dict) (existing_keys : gset K)
  : list dict :=
  match new with
  | [] => existing
  | r :: new =>
      match key r with
      | Some k =>
          if bool_decide (k ∈ existing_keys) then
            add_new key new existing existing_keys
          else
            add_new key new (existing ++ [r]) ({[k]} ∪ existing_keys)
      | None => add_new key new existing existing_keys
      end
  end.

(** [{r[field] for r in existing if field in r}] *)
Definition field_set (field : string) (existing : list dict) : gset value :=
  list_to_set (omap (λ r : dict, r !! field) existing).

Definition _merge_logins (new_logins : list dict) (st : store) : store :=
  let existing := logins_json st in
  let existing_users := field_set "user" existing in
  let existing :=
    add_new (λ login : dict, login !! "user") new_logins existing
      existing_users in
  Store existing (channels_json st) (messages_json st).

Definition _merge_channels (new_channels : list dict) (st : store)
  : store :=
  let existing := channels_json st in
  let existing_channels := field_set "channel" existing in
  let existing :=
    add_new (λ channel : dict, channel !! "channel") new_channels existing
      existing_channels in
  Store (logins_json st) existing (messages_json st).

(** [(timestamp, clock, msg_type, user, target, message_text)] *)
Definition message_id : Type :=
  value * value * value * value * value * value.

Definition _get_message_id (msg : dict) : message_id :=
  let msg_type := dict_get msg "type" (VStr "") in
  let timestamp := dict_get msg "timestamp" (VInt 0) in
  let clock := dict_get msg "clock" (VInt 0) in
  let user := dict_get msg "user" (dict_get msg "src" (VStr "")) in
  let target :=
    if bool_decide (msg_type = VStr "publish") then
      dict_get msg "channel" (VStr "")
    else
      dict_get msg "dst" (VStr "") in
  let message_text := dict_get msg "message" (VStr "") in
  (timestamp, clock, msg_type, user, target, message_text).

(** [a < b] on two values.  Python orders numbers with numbers and
    strings with strings, and raises [TypeError] on a mixed pair: the
    last two cases are outside Python, and the properties of the merge
    of messages are stated for numeric keys. *)
Definition value_lt (a b : value) : bool :=
  match a, b with
  | VNum x, VNum y => bool_decide (x < y)%Qc
  | VStr x, VStr y => String.ltb x y
  | VNum _, VStr _ => true
  | VStr _, VNum _ => false
  end.

(** [a < b] on two pairs: the first components that differ decide. *)
Definition pair_lt (a b : value * value) : bool :=
  if bool_decide (a.1 = b.1) then value_lt a.2 b.2 else value_lt a.1 b.1.

(** [lambda m: (m.get('timestamp', 0), m.get('clock', 0))] *)
Definition sort_key (m : dict) : value * value :=
  (dict_get m "timestamp" (VInt 0), dict_get m "clock" (VInt 0)).

(** [list.sort(key=sort_key)]: the sort is stable, so its result is the
    one that insertion from the right computes, an element moving past
    the strictly smaller ones only. *)
Fixpoint insert_sorted (x : dict) (l : list dict) : list dict :=
  match l with
  | [] => [x]
  | y :: l' =>
      if pair_lt (sort_key y) (sort_key x) then y :: insert_sorted x l'
      else x :: l
  end.

Definition sort (l : list dict) : list dict := foldr insert_sorted [] l.

Definition _merge_messages (new_messages : list dict) (st : store)
  : store :=
  let existing := messages_json st in
  let existing_ids : gset message_id :=
    list_to_set (_get_message_id <$> existing) in
  let existing :=
    add_new (λ msg, Some (_get_message_id msg)) new_messages existing
      existing_ids in
  Store (logins_json st) (channels_json st) (sort existing).

(** [a] may stand before [b] in a sorted list: the key of [b] is not
    below the key of [a]. *)
Definition key_le (a b : dict) : Prop :=
  pair_lt (sort_key b) (sort_key a) = false.

(** The timestamp and the clock of a record, when present, are
    numbers. *)
Definition numeric_keys (m : dict) : Prop :=
  (∃ t c, sort_key m = (VNum t, VNum c)).

End ReplicationManager.

(** ** server/election_manager.py *)

Module ElectionManager.

Record t := Manager {
  server_name : string;
  rank : Z
}.

(** What the handler sets off besides its answer. *)
Inductive effect :=
  | Thread_start_election.

(** [None]: [self.rank > requester_rank] raises [TypeError] when the
    request carries a string. *)
Definition _handle_election_request (self : t) (data : dict) (now : Qc)
  : option (Messaging.envelope * list effect) :=
  let requester_rank := dict_get data "rank" (VInt 0) in
  match requester_rank with
  | VStr _ => None
  | VNum requester_rank =>
      let started :=
        if bool_decide (requester_rank < Qc_of_Z (rank self))%Qc
        then [Thread_start_election] else [] in
      Some (Messaging.Envelope "election"
              (<["status" := VStr "OK"]>
                 (<["rank" := VInt (rank self)]>
                    (<["server" := VStr (server_name self)]>
                       (<["timestamp" := VNum now]> ∅)))),
            started)
  end.

End ElectionManager.

(** ** server/berkeley_sync.py *)

Module BerkeleySynchronizer.

(** [calculate_offsets] in exact arithmetic, in which the specification
    states its property; Python computes it on floats, whose rounding
    arithmetic is a parameter of [BerkeleyRound].

    [sum(timestamps.values())] *)
Definition sum (timestamps : gmap string Qc) : Qc :=
  map_fold (λ _ t acc, acc + t)%Qc 0%Qc timestamps.

(** [len(timestamps)] *)
Definition len (timestamps : gmap string Qc) : Qc :=
  Qc_of_Z (Z.of_nat (size timestamps)).

Definition calculate_offsets (timestamps : gmap string Qc)
  : gmap string Qc :=
  if bool_decide (timestamps = ∅) then ∅
  else
    let avg_time := (sum timestamps / len timestamps)%Qc in
    (λ timestamp, avg_time - timestamp)%Qc <$> timestamps.

(** The specification's [Σt] and [μ = Σt/N], on the samples as a list. *)
Definition samples_sum (samples : list Qc) : Qc := foldr Qcplus 0%Qc samples.

Definition arithmetic_mean (samples : list Qc) : Qc :=
  (samples_sum samples / Qc_of_Z (Z.of_nat (length samples)))%Qc.

End BerkeleySynchronizer.

(** ** server/server.py *)

Module MessageServer.

(** The state that a login reads and writes: the set of users, the
    Lamport clock, and [logins.json] as a list of objects, to which
    [datastore.append] adds an entry at the end. *)
Record t := Server {
  users : gset value;
  clock : LogicalClock.t;
  logins_json : list dict
}.

Abbreviation response := (Messaging.response unit).

Definition reply (service status : string) (description : option string)
    (now : Qc) (st : t) : response * t :=
  let '(r, c) :=
    Messaging.create_response service status tt (clock st) now
      description in
  (r, Server (users st) c (logins_json st)).

Definition handle_login (data : dict) (now : Qc) (st : t) : response * t :=
  let user := dict_get data "user" (VStr "") in
  if negb (truthy user) then
    reply "login" "erro" (Some "Nome de usuário não fornecido") now st
  else if bool_decide (user ∈ users st) then
    reply "login" "erro" (Some "Usuário já cadastrado") now st
  else
    let login_entry : dict :=
      <["user" := user]>
        (<["timestamp" := VNum now]>
           (<["clock" := VNum (LogicalClock.get_time (clock st))]> ∅)) in
    let st :=
      Server ({[user]} ∪ users st) (clock st)
        (logins_json st ++ [login_entry]) in
    reply "login" "sucesso" None now st.

End MessageServer.

(** ** common_utils/logical_clock.py: the operations in sequence *)

Module LamportClock.

(** A use of the clock: [increment()] before a send, [update(received)]
    at a receipt. *)
Inductive op :=
  | Increment
  | Update (received_time : Qc).

Definition apply (o : op) (c : LogicalClock.t) : Qc * LogicalClock.t :=
  match o with
  | Increment => LogicalClock.increment c
  | Update received_time => LogicalClock.update c received_time
  end.

(** The values that the operations return, in order. *)
Fixpoint returned (ops : list op) (c : LogicalClock.t) : list Qc :=
  match ops with
  | [] => []
  | o :: ops => (apply o c).1 :: returned ops (apply o c).2
  end.

(** The counters on which the [+ 1] of the model is that of Python,
    whether Python holds them as ints or as floats: the integers from
    [-2^53] on that leave room for [room] more ticks up to [2^53].  A
    float holds every integer of that range; it holds no integer between
    [2^53] and [2^53 + 2], so that [2.0**53 + 1 == 2.0**53]. *)
Definition headroom (room : Z) (q : Qc) : Prop :=
  ∃ n : Z, q = Qc_of_Z n ∧ - 2 ^ 53 ≤ n ∧ n + room ≤ 2 ^ 53.

End LamportClock.

(** ** common_utils/persistence.py: writing *)

Module Persistence.
Import DataStore.

(** The data directory: its files; the names on which a write raises an
    [IOError]; and, for those of them that [open(path, 'w')] opens before
    the error, what the file is left holding ([open] has emptied it, and
    [json.dump] may have written a part of the document).  A name of
    [unwritable] without an entry in [interrupted] is one that [open]
    refuses, and its file is not touched. *)
Record data_dir := DataDir {
  files : disk;
  unwritable : gset string;
  interrupted : gmap string file
}.

(** [save]: the file is replaced whole, and [True] returned; an [IOError]
    gives [False], and the file is as it was when [open] raised it, or
    holds what was written until then. *)
Definition save (d : data_dir) (filename : string) (data : pyobj)
  : bool * data_dir :=
  if bool_decide (filename ∈ unwritable d) then
    (false,
     match interrupted d !! filename with
     | Some remains =>
         DataDir (<[filename := remains]> (files d)) (unwritable d)
           (interrupted d)
     | None => d
     end)
  else
    (true,
     DataDir (<[filename := Document data]> (files d)) (unwritable d)
       (interrupted d)).

(** [append]: the exception that [load] does not catch leaves [append]
    before anything is written. *)
Definition append (d : data_dir) (filename : string) (item : pyobj)
  : result (bool * data_dir) :=
  match load (files d) filename (PyList []) with
  | Raise e => Raise e
  | Ret data =>
      let data := match data with PyList l => l | other => [other] end in
      Ret (save d filename (PyList (data ++ [item])))
  end.

(** [append] of several items, one call after the other; the run stops at
    the call that raises. *)
Fixpoint append_all (d : data_dir) (filename : string) (items : list pyobj)
  : result data_dir :=
  match items with
  | [] => Ret d
  | item :: items =>
      match append d filename item with
      | Raise e => Raise e
      | Ret (_, d) => append_all d filename items
      end
  end.




End Persistence.

(** ** server/replication_manager.py: the [replicate] service *)

Module ReplicationServer.
Import ReplicationManager.

(** An entry of [replication_log]:
    [{'timestamp', 'source', 'type', 'records'}]; the handler also
    writes the log to [replication/<server_name>.json] at every entry. *)
Record log_entry := LogEntry {
  log_timestamp : Qc;
  log_source : value;
  log_type : value;
  log_records : nat
}.

Record t := Server {
  server_name : string;
  files : store;
  replication_log : list log_entry
}.

(** The data of a [replicate] request, after
    [data.get('source_server', '')], [data.get('type', '')] and
    [data.get('payload', [])]; the payload is a list of objects. *)
Record replicate := Replicate {
  source_server : value;
  data_type : value;
  payload : list dict
}.

(** The data of the answer: [{'status': 'success', 'records_received': n}]
    or [{'status': 'error', 'message': 'Tipo desconhecido: ..'}]. *)
Inductive answer :=
  | Success (records_received : nat)
  | Tipo_desconhecido (data_type : value).

Definition _handle_replicate (data : replicate) (now : Qc) (self : t)
  : answer * t :=
  let merged :=
    if bool_decide (data_type data = VStr "logins") then
      Some (_merge_logins (payload data) (files self))
    else if bool_decide (data_type data = VStr "channels") then
      Some (_merge_channels (payload data) (files self))
    else if bool_decide (data_type data = VStr "messages") then
      Some (_merge_messages (payload data) (files self))
    else None in
  match merged with
  | None => (Tipo_desconhecido (data_type data), self)
  | Some files =>
      let log_entry :=
        LogEntry now (source_server data) (data_type data)
          (length (payload data)) in
      (Success (length (payload data)),
       Server (server_name self) files (replication_log self ++ [log_entry]))
  end.

(** The [replicate] requests that a server handles, one after the
    other. *)
Fixpoint replicate_all (requests : list (replicate * Qc)) (self : t) : t :=
  match requests with
  | [] => self
  | (data, now) :: requests =>
      replicate_all requests (_handle_replicate data now self).2
  end.

(** A server whose data directory is empty. *)
Definition empty (server_name : string) : t :=
  Server server_name (Store [] [] []) [].


(** The requests whose type is one of the three that are merged. *)
Definition known_type (data : replicate) : bool :=
  bool_decide (data_type data = VStr "logins")
  || bool_decide (data_type data = VStr "channels")
  || bool_decide (data_type data = VStr "messages").

End ReplicationServer.

(** ** server/election_manager.py: the Bully election *)

Module Bully.
Import ElectionManager.

(** An entry of [election_log]; [_log_election_event] also writes the log
    to [replication/election_log.json] at every event. *)
Record log_entry := LogEntry {
  log_timestamp : Qc;
  log_event : string;
  log_server : value;
  log_rank : value;
  log_local_server : string
}.

(** The fields of the manager that an election reads and writes.  The
    entries of [known_servers] are the objects [{'name': .., 'rank': ..}]
    of a [list] response of the registry. *)
Record state := State {
  self : ElectionManager.t;
  is_coordinator : bool;
  coordinator : option value;
  election_in_progress : bool;
  known_servers : list (value * Z);
  election_log : list log_entry
}.

(** [__init__] *)
Definition init (self : ElectionManager.t) : state :=
  State self false None false [] [].

(** [MessageServer._initialize_coordination_modules]: the manager is
    created, and the server of rank 1 starts as coordinator. *)
Definition initialize (self : ElectionManager.t) : state :=
  if bool_decide (rank self = 1) then
    State self true (Some (VStr (server_name self))) false [] []
  else init self.

Definition _log_election_event (event_type : string) (server rank : value)
    (now : Qc) (st : state) : state :=
  State (self st) (is_coordinator st) (coordinator st)
    (election_in_progress st) (known_servers st)
    (election_log st
     ++ [LogEntry now event_type server rank (server_name (self st))]).

Definition _handle_coordinator_announcement (data : dict) (now : Qc)
    (st : state) : Messaging.envelope * state :=
  let new_coordinator := dict_get data "coordinator" (VStr "") in
  let coordinator_rank := dict_get data "rank" (VInt 0) in
  let st :=
    State (self st)
      (bool_decide (new_coordinator = VStr (server_name (self st))))
      (Some new_coordinator) false (known_servers st) (election_log st) in
  let st :=
    _log_election_event "coordinator_announced" new_coordinator
      coordinator_rank now st in
  (Messaging.Envelope "coordinator"
     (<["status" := VStr "OK"]> (<["timestamp" := VNum now]> ∅)),
   st).

Definition update_server_list (server_list : list (value * Z))
    (st : state) : state :=
  State (self st) (is_coordinator st) (coordinator st)
    (election_in_progress st) server_list (election_log st).

(** What the manager sends: an [election] request or a [coordinator]
    announcement to port 6001 of a server, or an announcement on the
    topic [servers].  A send that raises is caught and printed. *)
Inductive sent :=
  | Election_to (target : value) (request : Messaging.envelope)
  | Publish (topic : string) (announcement : Messaging.envelope)
  | Coordinator_to (target : value) (announcement : Messaging.envelope).

Definition election_request (self : ElectionManager.t) (now : Qc)
  : Messaging.envelope :=
  Messaging.Envelope "election"
    (<["rank" := VInt (rank self)]>
       (<["server" := VStr (server_name self)]>
          (<["timestamp" := VNum now]> ∅))).

Definition _publish_coordinator_announcement (now : Qc) (st : state)
  : list sent :=
  [Publish "servers"
     (Messaging.Envelope "election"
        (<["event" := VStr "new_coordinator"]>
           (<["coordinator" := VStr (server_name (self st))]>
              (<["rank" := VInt (rank (self st))]>
                 (<["timestamp" := VNum now]> ∅)))))].

Definition _announce_to_all_servers (now : Qc) (st : state) : list sent :=
  let servers_to_notify :=
    filter (λ s : value * Z, s.1 ≠ VStr (server_name (self st)))
      (known_servers st) in
  (λ s : value * Z,
     Coordinator_to s.1
       (Messaging.Envelope "coordinator"
          (<["coordinator" := VStr (server_name (self st))]>
             (<["rank" := VInt (rank (self st))]>
                (<["timestamp" := VNum now]> ∅)))))
  <$> servers_to_notify.

Definition _become_coordinator (now : Qc) (st : state)
  : list sent * state :=
  let st :=
    State (self st) true (Some (VStr (server_name (self st)))) false
      (known_servers st) (election_log st) in
  let st :=
    _log_election_event "became_coordinator" (VStr (server_name (self st)))
      (VInt (rank (self st))) now st in
  (_publish_coordinator_announcement now st
   ++ _announce_to_all_servers now st, st).

(** The servers an election asks: those of the list with a larger rank
    and another name. *)
Definition higher_rank_servers (st : state) : list (value * Z) :=
  filter (λ s : value * Z,
            rank (self st) < s.2 ∧ s.1 ≠ VStr (server_name (self st)))
    (known_servers st).

(** [response.get('data', {}).get('status') == 'OK'], on what the
    exchange with a server gave: a response, or [None] when it raised
    (a timeout, a closed port). *)
Definition answered_ok (response : option Messaging.envelope) : bool :=
  match response with
  | Some r => bool_decide (Messaging.data r !! "status" = Some (VStr "OK"))
  | None => false
  end.

(** [net target] is what the exchange with [target] gives. *)
Definition start_election (net : value → option Messaging.envelope)
    (now : Qc) (st : state) : list sent * state :=
  if election_in_progress st then ([], st)
  else
    let st :=
      State (self st) (is_coordinator st) (coordinator st) true
        (known_servers st) (election_log st) in
    let st :=
      _log_election_event "election_started" (VStr (server_name (self st)))
        (VInt (rank (self st))) now st in
    let higher := higher_rank_servers st in
    match higher with
    | [] => _become_coordinator now st
    | _ =>
        let requests :=
          (λ s : value * Z, Election_to s.1 (election_request (self st) now))
          <$> higher in
        let received_ok :=
          existsb (λ s : value * Z, answered_ok (net s.1)) higher in
        if negb received_ok then
          let '(out, st) := _become_coordinator now st in
          (requests ++ out, st)
        else
          (requests,
           State (self st) (is_coordinator st) (coordinator st) false
             (known_servers st) (election_log st))
    end.

(** [not self.coordinator] *)
Definition no_coordinator (st : state) : bool :=
  match coordinator st with
  | None => true
  | Some c => negb (truthy c)
  end.

Definition check_coordinator_health (last_heartbeat_time timeout now : Qc)
    (st : state) : bool :=
  if no_coordinator st || is_coordinator st then true
  else if bool_decide (timeout < now - last_heartbeat_time)%Qc then false
  else true.

(** [MessageServer._process_servers_topic]: what an announcement read on
    the topic [servers] does to the manager. *)
Definition _process_servers_topic (message : Messaging.envelope)
    (st : state) : state :=
  if bool_decide (Messaging.service message = "election")
     && bool_decide (Messaging.data message !! "event"
                     = Some (VStr "new_coordinator")) then
    let new_coordinator :=
      dict_get (Messaging.data message) "coordinator" (VStr "") in
    State (self st)
      (bool_decide (new_coordinator = VStr (server_name (self st))))
      (Some new_coordinator) (election_in_progress st) (known_servers st)
      (election_log st)
  else st.

(** What happens to a manager, one thing after the other. *)
Inductive event :=
  | Coordinator_announcement (data : dict)
  | Topic_announcement (message : Messaging.envelope)
  | Server_list (server_list : list (value * Z))
  | Election (net : value → option Messaging.envelope).

Definition step (ev : event) (now : Qc) (st : state) : list sent * state :=
  match ev with
  | Coordinator_announcement data =>
      ([], (_handle_coordinator_announcement data now st).2)
  | Topic_announcement message => ([], _process_servers_topic message st)
  | Server_list server_list => ([], update_server_list server_list st)
  | Election net => start_election net now st
  end.

Fixpoint run (events : list (event * Qc)) (st : state)
  : list sent * state :=
  match events with
  | [] => ([], st)
  | (ev, now) :: events =>
      let '(out, st) := step ev now st in
      let '(outs, st) := run events st in
      (out ++ outs, st)
  end.

(** The servers that an election request reaches, with their managers:
    the exchange with one of them gives the answer of its
    [_handle_election_request]; with another, it raises. *)
Definition answers (peers : gmap value ElectionManager.t)
    (request : Messaging.envelope) (now : Qc)
  : value → option Messaging.envelope :=
  λ target,
    peer ← peers !! target;
    fst <$> _handle_election_request peer (Messaging.data request) now.

(** The targets of the election requests among what was sent. *)
Definition asked (out : list sent) : list value :=
  omap (λ m, match m with Election_to target _ => Some target | _ => None end)
    out.

(** The targets of the [coordinator] announcements among what was sent. *)
Definition announced_to (out : list sent) : list value :=
  omap (λ m, match m with Coordinator_to target _ => Some target | _ => None end)
    out.

(** What was published among what was sent, with its topic. *)
Definition published (out : list sent)
  : list (string * Messaging.envelope) :=
  omap (λ m, match m with
             | Publish topic announcement => Some (topic, announcement)
             | _ => None
             end)
    out.

End Bully.

(** ** server/berkeley_sync.py: a round of synchronisation *)

Module BerkeleyRound.
Import BerkeleySynchronizer.

(** The arithmetic of the round.  Its numbers are floats: [time.time()],
    [time_offset], which starts at [0.0], and what is computed from
    them; Python rounds their sums, differences and means to binary64.
    The arithmetic is therefore a parameter: [add x y] is what [x + y]
    evaluates to, [sub x y] what [x - y] does, and [average timestamps]
    what [sum(timestamps.values()) / len(timestamps)] does. *)
Record arithmetic := Arithmetic {
  add : Qc → Qc → Qc;
  sub : Qc → Qc → Qc;
  average : gmap string Qc → Qc
}.

(** Exact arithmetic: that of [BerkeleySynchronizer.calculate_offsets]. *)
Definition exact : arithmetic :=
  Arithmetic Qcplus Qcminus
    (λ timestamps, sum timestamps / len timestamps)%Qc.

(** An entry of [sync_history]; [apply_offset] also writes the offset and
    the history to [replication/berkeley_sync_<name>.json]. *)
Record sync_record := SyncRecord {
  sync_timestamp : Qc;
  offset_applied : Qc;
  total_offset : Qc
}.

(** Server names are the strings that key the timestamps and make the
    addresses [tcp://<name>:6000]. *)
Record t := Synchronizer {
  server_name : string;
  is_coordinator : bool;
  time_offset : Qc;
  sync_history : list sync_record
}.

Definition init (server_name : string) (is_coordinator : bool) : t :=
  Synchronizer server_name is_coordinator 0%Qc [].

Definition get_local_time (fp : arithmetic) (now : Qc) (self : t) : Qc :=
  add fp now (time_offset self).

Definition apply_offset (fp : arithmetic) (offset now : Qc) (self : t)
  : t :=
  let total := add fp (time_offset self) offset in
  Synchronizer (server_name self) (is_coordinator self) total
    (sync_history self ++ [SyncRecord now offset total]).

(** [net name] is the ['time'] of the answer of [name] to [get_time], or
    [None] when the exchange raises or the answer has none.  The names
    of [server_list] are those of its entries. *)
Definition collect_timestamps (fp : arithmetic) (server_list : list string)
    (net : string → option value) (now : Qc) (self : t)
  : gmap string value :=
  foldl (λ timestamps name,
           if bool_decide (name = server_name self) then timestamps
           else
             match net name with
             | Some time =>
                 if truthy time then <[name := time]> timestamps
                 else timestamps
             | None => timestamps
             end)
    {[ server_name self := VNum (get_local_time fp now self) ]} server_list.

(** What [collect_timestamps] keeps of the answer of [name]: a time
    that is not false. *)
Definition kept (net : string → option value) (name : string)
  : option value :=
  match net name with
  | Some time => if truthy time then Some time else None
  | None => None
  end.

Definition as_number (v : value) : option Qc :=
  match v with
  | VNum q => Some q
  | VStr _ => None
  end.

(** The timestamps as numbers; [None] when one is a string, on which
    [sum] raises [TypeError]. *)
Definition numbers (timestamps : gmap string value)
  : option (gmap string Qc) :=
  if decide (map_Forall (λ _ v, is_Some (as_number v)) timestamps)
  then Some (omap as_number timestamps)
  else None.

(** [calculate_offsets], in the arithmetic of the round. *)
Definition calculate_offsets (fp : arithmetic)
    (timestamps : gmap string Qc) : gmap string Qc :=
  if bool_decide (timestamps = ∅) then ∅
  else
    let avg_time := average fp timestamps in
    (λ timestamp, sub fp avg_time timestamp) <$> timestamps.

(** The offsets sent to the other servers, and the coordinator after its
    own. *)
Definition distribute_offsets (fp : arithmetic)
    (offsets : gmap string Qc) (server_list : list string) (now : Qc)
    (self : t) : list (string * Qc) * t :=
  foldl (λ (acc : list (string * Qc) * t) server_name',
           if bool_decide (server_name' = server_name acc.2) then
             (acc.1,
              apply_offset fp (default 0%Qc (offsets !! server_name')) now
                acc.2)
           else
             match offsets !! server_name' with
             | None => acc
             | Some offset => (acc.1 ++ [(server_name', offset)], acc.2)
             end)
    ([], self) server_list.

(** The result, the offsets sent and the coordinator afterwards.  An
    exception of the round is caught and gives [False]. *)
Definition run_synchronization (fp : arithmetic)
    (server_list : list string) (net : string → option value) (now : Qc)
    (self : t) : bool * list (string * Qc) * t :=
  if negb (is_coordinator self) then (false, [], self)
  else
    let timestamps := collect_timestamps fp server_list net now self in
    if bool_decide (size timestamps < 2)%nat then (false, [], self)
    else
      match numbers timestamps with
      | None => (false, [], self)
      | Some timestamps =>
          let offsets := calculate_offsets fp timestamps in
          let '(out, self) :=
            distribute_offsets fp offsets server_list now self in
          (true, out, self)
      end.

(** [ReplicationManager.update_server_list]: the servers of the list
    other than this one. *)
Definition update_server_list (servers : list string)
    (server_name : string) : list string :=
  filter (λ s, s ≠ server_name) servers.

(** [MessageServer._run_berkeley_sync]: the round is run on the known
    servers followed by this one. *)
Definition _run_berkeley_sync (fp : arithmetic)
    (known_servers : list string) (net : string → option value) (now : Qc)
    (self : t) : bool * list (string * Qc) * t :=
  run_synchronization fp (known_servers ++ [server_name self]) net now self.

(** The offsets [os] applied one after the other, each at its instant. *)
Definition apply_offsets (fp : arithmetic) (os : list (Qc * Qc)) (self : t)
  : t :=
  foldl (λ self (o : Qc * Qc), apply_offset fp o.1 o.2 self) self os.

(** The sum of a list of numbers. *)
Definition total (os : list Qc) : Qc := foldr Qcplus 0%Qc os.

End BerkeleyRound.

(** ** server/server.py: channels, messages and histories *)

Module MessageBoard.

(** [pub_socket.send_multipart([topic, message])] *)
Record publication := Publication {
  topic : string;
  body : Messaging.envelope
}.

(** The server with what its request handlers read and write: the sets
    and the list in memory, the Lamport clock, the count of messages, the
    three files as the lists of objects they hold, and what was published.
    The iteration order of a set is that of [elements]. *)
Record t := Server {
  users : gset value;
  channels : gset value;
  messages : list dict;
  clock : LogicalClock.t;
  message_count : Z;
  logins_json : list dict;
  channels_json : list dict;
  messages_json : list dict;
  published : list publication
}.

(** [__init__] on the three files (the empty list for a missing one). *)
Definition _load_state (logins_data channels_data messages_data : list dict)
  : t :=
  Server (list_to_set (omap (λ entry : dict, entry !! "user") logins_data))
    (list_to_set (omap (λ entry : dict, entry !! "channel") channels_data))
    messages_data LogicalClock.init 0
    logins_data channels_data messages_data [].

Definition _save_state (now : Qc) (st : t) : t :=
  let users_data : list dict :=
    (λ user, <["user" := user]> (<["timestamp" := VNum now]> ∅))
    <$> elements (users st) in
  let channels_data : list dict :=
    (λ channel, <["channel" := channel]> (<["timestamp" := VNum now]> ∅))
    <$> elements (channels st) in
  Server (users st) (channels st) (messages st) (clock st)
    (message_count st) users_data channels_data (messages st)
    (published st).

(** The definition of [_check_sync] that the class ends up with (the
    second one): the state is saved every [SYNC_INTERVAL] messages. *)
Definition SYNC_INTERVAL : Z := 10.

Definition _check_sync (now : Qc) (st : t) : t :=
  if bool_decide (message_count st `mod` SYNC_INTERVAL = 0)
  then _save_state now st else st.

(** The fields a handler adds to its response. *)
Inductive payload :=
  | NoData
  | UsersData (users : list value)
  | ChannelsData (channels : list value)
  | HistoryData (channel : value) (messages : list dict)
  | PrivateHistoryData (user : value) (messages : list dict).

Abbreviation response := (Messaging.response payload).

(** A handler returns a response, or raises. *)
Inductive outcome :=
  | Replied (r : response) (st : t)
  | Raised (st : t).

Definition set_clock (c : LogicalClock.t) (st : t) : t :=
  Server (users st) (channels st) (messages st) c (message_count st)
    (logins_json st) (channels_json st) (messages_json st) (published st).

Definition reply (service status : string) (data : payload)
    (description : option string) (now : Qc) (st : t) : outcome :=
  let '(r, c) :=
    Messaging.create_response service status data (clock st) now
      description in
  Replied r (set_clock c st).

(** [create_message] on a dictionary that the handler has just built. *)
Definition create_message (service : string) (data : dict) (now : Qc)
    (clock : LogicalClock.t) : Messaging.envelope * LogicalClock.t :=
  match
    Messaging.create_message service 1%positive
      (Messaging.World {[ 1%positive := data ]} clock now)
  with
  | Some (message, w) => (message, Messaging.clock w)
  | None => (Messaging.Envelope service data, clock)
  end.

(** [handle_login], on the fields it uses. *)
Definition handle_login (data : dict) (now : Qc) (st : t) : outcome :=
  let '(r, s) :=
    MessageServer.handle_login data now
      (MessageServer.Server (users st) (clock st) (logins_json st)) in
  Replied
    (Messaging.Response (Messaging.r_service r) (Messaging.r_status r)
       (Messaging.r_timestamp r) (Messaging.r_clock r)
       (Messaging.r_description r) NoData)
    (Server (MessageServer.users s) (channels st) (messages st)
       (MessageServer.clock s) (message_count st)
       (MessageServer.logins_json s) (channels_json st) (messages_json st)
       (published st)).

Definition handle_list_users (data : dict) (now : Qc) (st : t) : outcome :=
  reply "users" "sucesso" (UsersData (elements (users st))) None now st.

Definition handle_create_channel (data : dict) (now : Qc) (st : t)
  : outcome :=
  let channel := dict_get data "channel" (VStr "") in
  if negb (truthy channel) then
    reply "channel" "erro" NoData (Some "Nome do canal não fornecido") now st
  else if bool_decide (channel ∈ channels st) then
    reply "channel" "erro" NoData (Some "Canal já existe") now st
  else
    let channel_entry : dict :=
      <["channel" := channel]>
        (<["timestamp" := VNum now]>
           (<["clock" := VNum (LogicalClock.get_time (clock st))]> ∅)) in
    let st :=
      Server (users st) ({[channel]} ∪ channels st) (messages st) (clock st)
        (message_count st) (logins_json st)
        (channels_json st ++ [channel_entry]) (messages_json st)
        (published st) in
    reply "channel" "sucesso" NoData None now st.

Definition handle_list_channels (data : dict) (now : Qc) (st : t)
  : outcome :=
  reply "channels" "sucesso" (ChannelsData (elements (channels st))) None
    now st.

(** The message is added to the list, the list is written to
    [messages.json], the count goes up and [_check_sync] runs. *)
Definition store_message (message_entry : dict) (publication : publication)
    (now : Qc) (st : t) : t :=
  let messages := messages st ++ [message_entry] in
  _check_sync now
    (Server (users st) (channels st) messages (clock st)
       (message_count st + 1) (logins_json st) (channels_json st) messages
       (published st ++ [publication])).

(** [channel.encode('utf-8')] raises [AttributeError] on a number. *)
Definition handle_publish (data : dict) (now : Qc) (st : t) : outcome :=
  let user := dict_get data "user" (VStr "") in
  let channel := dict_get data "channel" (VStr "") in
  let message_text := dict_get data "message" (VStr "") in
  if negb (truthy channel) then
    reply "publish" "erro" NoData (Some "Nome do canal não fornecido") now st
  else if bool_decide (channel ∉ channels st) then
    reply "publish" "erro" NoData (Some "Canal não existe") now st
  else
    let pub_data : dict := <["user" := user]> (<["message" := message_text]> ∅) in
    let '(pub_message, c) := create_message "publish" pub_data now (clock st) in
    let st := set_clock c st in
    match channel with
    | VNum _ => Raised st
    | VStr topic =>
        let message_entry : dict :=
          <["type" := VStr "publish"]>
            (<["user" := user]>
               (<["channel" := channel]>
                  (<["message" := message_text]>
                     (<["timestamp" := VNum now]>
                        (<["clock" := VNum (LogicalClock.get_time c)]> ∅))))) in
        let st :=
          store_message message_entry (Publication topic pub_message) now st in
        reply "publish" "OK" NoData None now st
    end.

Definition handle_message (data : dict) (now : Qc) (st : t) : outcome :=
  let src := dict_get data "src" (VStr "") in
  let dst := dict_get data "dst" (VStr "") in
  let message_text := dict_get data "message" (VStr "") in
  if negb (truthy dst) then
    reply "message" "erro" NoData (Some "Destinatário não fornecido") now st
  else if bool_decide (dst ∉ users st) then
    reply "message" "erro" NoData (Some "Usuário destinatário não existe")
      now st
  else
    let msg_data : dict := <["src" := src]> (<["message" := message_text]> ∅) in
    let '(msg_message, c) := create_message "message" msg_data now (clock st) in
    let st := set_clock c st in
    match dst with
    | VNum _ => Raised st
    | VStr topic =>
        let message_entry : dict :=
          <["type" := VStr "message"]>
            (<["src" := src]>
               (<["dst" := dst]>
                  (<["message" := message_text]>
                     (<["timestamp" := VNum now]>
                        (<["clock" := VNum (LogicalClock.get_time c)]> ∅))))) in
        let st :=
          store_message message_entry (Publication topic msg_message) now st in
        reply "message" "OK" NoData None now st
    end.

(** The int that a number is, if it is one.  The model keeps the value
    of a number, not whether Python holds it as an int or as a float: a
    float of integral value, on which the slice below raises [TypeError]
    as on any float, is read as the int of that value.  The properties
    about a limit are stated for ints. *)
Definition as_int (q : Qc) : option Z :=
  if bool_decide (Qden q = 1%positive) then Some (Qnum q) else None.

(** [l[start:]] *)
Definition slice_from {A} (start : Z) (l : list A) : list A :=
  let len := Z.of_nat (length l) in
  let start :=
    if bool_decide (start < 0) then Z.max (len + start) 0
    else Z.min start len in
  drop (Z.to_nat start) l.

(** [if len(l) > limit: l = l[-limit:]]; [None] when it raises
    [TypeError]: the limit is a string, or it is a number that is not an
    int and the length is larger. *)
Definition last_messages (limit : value) (l : list dict)
  : option (list dict) :=
  match limit with
  | VStr _ => None
  | VNum q =>
      if bool_decide (q < Qc_of_Z (Z.of_nat (length l)))%Qc then
        n ← as_int q; Some (slice_from (- n) l)
      else Some l
  end.

Definition handle_get_history (data : dict) (now : Qc) (st : t) : outcome :=
  let channel := dict_get data "channel" (VStr "") in
  let limit := dict_get data "limit" (VInt 50) in
  if negb (truthy channel) then
    reply "get_history" "erro" NoData (Some "Nome do canal não fornecido")
      now st
  else if bool_decide (channel ∉ channels st) then
    reply "get_history" "erro" NoData (Some "Canal não existe") now st
  else
    let channel_messages :=
      filter (λ msg : dict,
                msg !! "type" = Some (VStr "publish")
                ∧ msg !! "channel" = Some channel)
        (messages st) in
    match last_messages limit channel_messages with
    | None => Raised st
    | Some channel_messages =>
        reply "get_history" "sucesso" (HistoryData channel channel_messages)
          None now st
    end.

Definition handle_get_private_history (data : dict) (now : Qc) (st : t)
  : outcome :=
  let user := dict_get data "user" (VStr "") in
  let limit := dict_get data "limit" (VInt 50) in
  if negb (truthy user) then
    reply "get_private_history" "erro" NoData
      (Some "Nome do usuário não fornecido") now st
  else
    let private_messages :=
      filter (λ msg : dict,
                msg !! "type" = Some (VStr "message")
                ∧ (msg !! "src" = Some user ∨ msg !! "dst" = Some user))
        (messages st) in
    match last_messages limit private_messages with
    | None => Raised st
    | Some private_messages =>
        reply "get_private_history" "sucesso"
          (PrivateHistoryData user private_messages) None now st
    end.

(** [self.message_count += 1] *)
Definition count_message (st : t) : t :=
  Server (users st) (channels st) (messages st) (clock st)
    (message_count st + 1) (logins_json st) (channels_json st)
    (messages_json st) (published st).

(** What the loop of [run] receives: bytes that do not parse to a
    non-empty message, or a message. *)
Inductive request :=
  | Invalid
  | Request (service : string) (data : dict).

(** One turn of the loop of [run]: the clock is updated from the message,
    the service is dispatched, the message is counted, the response is
    sent and [_check_sync] runs.  [max] of a number and a string
    raises. *)
Definition serve (req : request) (now : Qc) (st : t) : outcome :=
  match req with
  | Invalid => reply "error" "erro" NoData (Some "Mensagem inválida") now st
  | Request service data =>
      match dict_get data "clock" (VInt 0) with
      | VStr _ => Raised st
      | VNum received_clock =>
          let st :=
            set_clock (LogicalClock.update (clock st) received_clock).2 st in
          let counted (o : outcome) : outcome :=
            match o with
            | Replied r st => Replied r (count_message st)
            | Raised st => Raised st
            end in
          let handled :=
            if bool_decide (service = "login") then
              counted (handle_login data now st)
            else if bool_decide (service = "users") then
              counted (handle_list_users data now st)
            else if bool_decide (service = "channel") then
              counted (handle_create_channel data now st)
            else if bool_decide (service = "channels") then
              counted (handle_list_channels data now st)
            else if bool_decide (service = "publish") then
              handle_publish data now st
            else if bool_decide (service = "message") then
              handle_message data now st
            else if bool_decide (service = "get_history") then
              counted (handle_get_history data now st)
            else if bool_decide (service = "get_private_history") then
              counted (handle_get_private_history data now st)
            else
              reply service "erro" NoData
                (Some ("Serviço desconhecido: " +:+ service)) now st in
          match handled with
          | Replied r st => Replied r (_check_sync now st)
          | Raised st => Raised st
          end
      end
  end.

(** The responses sent to the requests.  An exception ends the loop: the
    state is saved on the way out. *)
Fixpoint run (requests : list (request * Qc)) (st : t)
  : list response * t :=
  match requests with
  | [] => ([], st)
  | (req, now) :: requests =>
      match serve req now st with
      | Replied r st => let '(rs, st) := run requests st in (r :: rs, st)
      | Raised st => ([], _save_state now st)
      end
  end.


(** What a restart would find in the files is what the server holds. *)
Definition saved (st : t) : Prop :=
  users st
  = list_to_set (omap (λ entry : dict, entry !! "user") (logins_json st))
  ∧ channels st
    = list_to_set
        (omap (λ entry : dict, entry !! "channel") (channels_json st))
  ∧ messages_json st = messages st.

End MessageBoard.

(** ** server/server.py: registration and the coordinator of the server *)

Module Coordination.

(** The fields of the server about coordination: its name, the rank the
    registry gave it, its coordinator, its Lamport clock, and the flag
    [is_coordinator] of its Berkeley synchronizer ([None] as long as
    [berkeley_sync] is [None]). *)
Record t := Server {
  server_name : string;
  rank : option Z;
  coordinator : option value;
  clock : LogicalClock.t;
  berkeley_is_coordinator : option bool
}.

(** [__init__] *)
Definition init (server_name : string) : t :=
  Server server_name None None LogicalClock.init None.

(** [_initialize_coordination_modules]: the synchronizer is created, and
    the server of rank 1 starts as coordinator. *)
Definition _initialize_coordination_modules (st : t) : t :=
  let is_coordinator := bool_decide (rank st = Some 1) in
  Server (server_name st) (rank st)
    (if is_coordinator then Some (VStr (server_name st)) else coordinator st)
    (clock st) (Some is_coordinator).

(** [register_with_reference], the exchange being with the registry
    [registry] at its instant [now_ref]; [delivered] is false when the
    send or the receipt raises.  The result, the server and the registry
    afterwards; the registry raises on no message of a server, whose
    clock is a number. *)
Definition register_with_reference (delivered : bool) (now now_ref : Qc)
    (registry : ReferenceServer.t) (st : t)
  : bool * t * ReferenceServer.t :=
  let '(message, c) :=
    MessageBoard.create_message "rank" {[ "user" := VStr (server_name st) ]}
      now (clock st) in
  let st :=
    Server (server_name st) (rank st) (coordinator st) c
      (berkeley_is_coordinator st) in
  if negb delivered then (false, st, registry)
  else
    match
      ReferenceServer.serve (Messaging.service message)
        (Messaging.data message) now_ref registry
    with
    | None => (false, st, registry)
    | Some (response, registry) =>
        let c :=
          (LogicalClock.update (clock st) (Messaging.r_clock response)).2 in
        let st :=
          Server (server_name st) (rank st) (coordinator st) c
            (berkeley_is_coordinator st) in
        if bool_decide (Messaging.r_status response = "sucesso") then
          let rank :=
            match Messaging.r_data response with
            | ReferenceServer.RankData rank => Some rank
            | _ => None
            end in
          (true,
           _initialize_coordination_modules
             (Server (server_name st) rank (coordinator st) (clock st)
                (berkeley_is_coordinator st)),
           registry)
        else (false, st, registry)
    end.

(** [min(server_list, key=lambda s: s['rank'])]: the first entry of the
    least rank. *)
Definition min_rank_server (first : value * Z) (others : list (value * Z))
  : value * Z :=
  foldl (λ best s : value * Z, if bool_decide (s.2 < best.2) then s else best)
    first others.

Definition _update_coordinator_from_list (server_list : list (value * Z))
    (st : t) : t :=
  match server_list with
  | [] => st
  | first :: others =>
      let new_coordinator := (min_rank_server first others).1 in
      if bool_decide (coordinator st ≠ Some new_coordinator) then
        Server (server_name st) (rank st) (Some new_coordinator) (clock st)
          ((λ _, bool_decide (new_coordinator = VStr (server_name st)))
           <$> berkeley_is_coordinator st)
      else st
  end.

(** [_process_servers_topic], on the fields of the server. *)
Definition _process_servers_topic (message : Messaging.envelope) (st : t)
  : t :=
  if bool_decide (Messaging.service message = "election")
     && bool_decide (Messaging.data message !! "event"
                     = Some (VStr "new_coordinator")) then
    let new_coordinator :=
      dict_get (Messaging.data message) "coordinator" (VStr "") in
    Server (server_name st) (rank st) (Some new_coordinator) (clock st)
      ((λ _, bool_decide (new_coordinator = VStr (server_name st)))
       <$> berkeley_is_coordinator st)
  else st.

(** What reaches the server about its coordinator: an announcement on
    the topic [servers], or the list of servers of the registry. *)
Inductive event :=
  | Announcement (message : Messaging.envelope)
  | Server_list (server_list : list (value * Z)).

Definition step (ev : event) (st : t) : t :=
  match ev with
  | Announcement message => _process_servers_topic message st
  | Server_list server_list => _update_coordinator_from_list server_list st
  end.

Definition run (events : list event) (st : t) : t :=
  foldl (λ st ev, step ev st) st events.

End Coordination.

(** ** server/server.py: the replication of the state *)

Module StateReplication.
Import ReplicationServer.

(** [MessageServer._replicate_current_state]: the data of the three
    [replicate] requests that [replicate_to_all] and
    [_replicate_to_server] send to every known server in turn. *)
Definition _replicate_current_state (server_name : string) (now : Qc)
    (st : MessageBoard.t) : list replicate :=
  let users_data : list dict :=
    (λ user, <["user" := user]> (<["timestamp" := VNum now]> ∅))
    <$> elements (MessageBoard.users st) in
  let channels_data : list dict :=
    (λ channel, <["channel" := channel]> (<["timestamp" := VNum now]> ∅))
    <$> elements (MessageBoard.channels st) in
  [ Replicate (VStr server_name) (VStr "logins") users_data;
    Replicate (VStr server_name) (VStr "channels") channels_data;
    Replicate (VStr server_name) (VStr "messages") (MessageBoard.messages st) ].

(** A known server that the requests reach, one after the other. *)
Definition receive (requests : list replicate) (now : Qc) (peer : t) : t :=
  replicate_all ((λ data, (data, now)) <$> requests) peer.

End StateReplication.

(** * Properties *)

(** ** Persistence: [DataStore.load] *)

Section load.
Import DataStore.

Lemma load_missing (fs : disk) filename default :
  fs !! filename = None →
  load fs filename default = Ret (default_or_empty default).
Proof. intros Hfs. unfold load. by rewrite Hfs. Qed.

Lemma load_caught (fs : disk) filename default e :
  fs !! filename = Some (Undecodable e) → caught e = true →
  load fs filename default = Ret (default_or_empty default).
Proof. intros Hfs He. unfold load. by rewrite Hfs, He. Qed.

(** C2, as stated, fails: with the default [None] and no file, [load]
    returns the empty list, which is not the default it was given. *)
Lemma load_default_None_counterexample :
  ¬ (∀ (fs : disk) filename default,
       fs !! filename = None → load fs filename default = Ret default).
Proof.
  intros H. specialize (H ∅ "logins.json" PyNone (lookup_empty _)).
  vm_compute in H. discriminate H.
Qed.

(** C2, amended: when the file does not exist, or exists and reading it
    raises [json.JSONDecodeError] or [IOError], [load] raises nothing and
    returns the given default if that is not [None], and the empty list
    if it is. *)
Theorem load_returns_default_or_empty_list (fs : disk) filename default :
  fs !! filename = None
  ∨ fs !! filename = Some (Undecodable JSONDecodeError)
  ∨ fs !! filename = Some (Undecodable IOError) →
  (default ≠ PyNone → load fs filename default = Ret default)
  ∧ (default = PyNone → load fs filename default = Ret (PyList [])).
Proof.
  intros Hfs.
  assert (load fs filename default = Ret (default_or_empty default)) as ->.
  { destruct Hfs as [Hfs|[Hfs|Hfs]];
      eauto using load_missing, load_caught. }
  split.
  - intros Hd. by destruct default.
  - by intros ->.
Qed.

Lemma load_returns_default_or_empty_list_witness :
  load (<["logins.json" := Undecodable JSONDecodeError]> ∅)
    "logins.json" (PyDict ∅) = Ret (PyDict ∅)
  ∧ load ∅ "logins.json" PyNone = Ret (PyList []).
Proof.
  split.
  - apply (load_returns_default_or_empty_list
             (<["logins.json" := Undecodable JSONDecodeError]> ∅)
             "logins.json" (PyDict ∅)).
    + right; left. reflexivity.
    + discriminate.
  - apply (load_returns_default_or_empty_list ∅ "logins.json" PyNone).
    + left. reflexivity.
    + reflexivity.
Defined.

End load.

(** ** Messaging: [create_message] writes through its argument *)

Section create_message.
Import Messaging.

Lemma create_message_eq service (r : loc) (d : dict) (w : world) :
  heap w !! r = Some d →
  let c := (LogicalClock.counter (clock w) + 1)%Qc in
  let d' := <["clock" := VNum c]> (<["timestamp" := VNum (wall w)]> d) in
  create_message service r w
  = Some (Envelope service d',
          World (<[r := d']> (heap w)) (LogicalClock.Make c) (wall w)).
Proof.
  intros Hd c d'. unfold create_message, mbind, M_bind.
  unfold clock_increment, time_time, setitem, packb. simpl.
  rewrite Hd. simpl. rewrite lookup_insert_eq. simpl.
  rewrite lookup_insert_eq. by rewrite insert_insert_eq.
Qed.



End create_message.

(** ** Election: the answer to an election request *)

Section election_request.
Import ElectionManager.

(** C6: for a request carrying the rank [r] (a request without a rank
    carries 0), the handler answers; the answer has status ["OK"] and the
    receiver's own rank; and an election is started exactly when the
    receiver's rank is strictly greater than [r]: with a rank below or
    equal to [r] nothing is started. *)
Theorem election_request_answer (self : t) (data : dict) (now r : Qc) :
  dict_get data "rank" (VInt 0) = VNum r →
  ∃ env started,
    _handle_election_request self data now = Some (env, started)
    ∧ Messaging.service env = "election"
    ∧ Messaging.data env !! "status" = Some (VStr "OK")
    ∧ Messaging.data env !! "rank" = Some (VInt (rank self))
    ∧ (started = [Thread_start_election] ↔ (r < Qc_of_Z (rank self))%Qc)
    ∧ (started = [] ↔ (Qc_of_Z (rank self) ≤ r)%Qc).
Proof.
  intros Hr. unfold _handle_election_request. rewrite Hr.
  eexists _, _. split; [reflexivity|]. simpl.
  split; [done|]. split; [done|]. split; [done|].
  case_bool_decide as Hlt; split; split; try done.
  - intros Hle. by apply Qcle_ngt in Hle.
  - intros _. by apply Qcle_ngt.
Qed.

Lemma election_request_answer_witness :
  ∃ env started,
    _handle_election_request (Manager "server_3" 3)
      {[ "rank" := VInt 1; "server" := VStr "server_1" ]} (Qc_of_Z 50)
    = Some (env, started)
    ∧ Messaging.service env = "election"
    ∧ Messaging.data env !! "status" = Some (VStr "OK")
    ∧ Messaging.data env !! "rank" = Some (VInt 3)
    ∧ (started = [Thread_start_election]
       ↔ (Qc_of_Z 1 < Qc_of_Z 3)%Qc)
    ∧ (started = [] ↔ (Qc_of_Z 3 ≤ Qc_of_Z 1)%Qc).
Proof.
  apply (election_request_answer (Manager "server_3" 3)
           {[ "rank" := VInt 1; "server" := VStr "server_1" ]}
           (Qc_of_Z 50) (Qc_of_Z 1)).
  reflexivity.
Defined.

End election_request.

(** ** Message server: login *)

Section handle_login.
Import MessageServer.

(** A [user] is false in Python when the field is missing, the empty
    string, or zero. *)
Lemma user_falsy (data : dict) :
  truthy (dict_get data "user" (VStr "")) = false
  ↔ data !! "user" = None
    ∨ data !! "user" = Some (VStr "")
    ∨ data !! "user" = Some (VNum 0%Qc).
Proof.
  unfold dict_get. destruct (data !! "user") as [[q|s]|]; simpl.
  - rewrite bool_decide_eq_false. split.
    + intros Hq. right; right. destruct (decide (q = 0%Qc)); naive_solver.
    + intros [?|[?|?]]; naive_solver.
  - rewrite bool_decide_eq_false. split.
    + intros Hs. right; left. destruct (decide (s = "")); naive_solver.
    + intros [?|[?|?]]; naive_solver.
  - split; [by left|]. intros _. by vm_compute.
Qed.



End handle_login.

(** ** Registry: what the handlers keep and what they save *)

Section registry_handlers.
Import ReferenceServer.

(** A rank request that names a server saves the roster it leaves. *)
Lemma handle_rank_request_saves data now st :
  truthy (dict_get data "user" (VStr "")) = true →
  let st' := (handle_rank_request data now st).2 in
  reference_json st'
  = Some (Snapshot (servers st') (next_rank st') now).
Proof.
  intros Hu. unfold handle_rank_request. rewrite Hu. simpl.
  by destruct (servers st !! _).
Qed.

(** A heartbeat never writes [reference.json]. *)
Lemma handle_heartbeat_saves_nothing data now st :
  reference_json (handle_heartbeat data now st).2 = reference_json st.
Proof.
  unfold handle_heartbeat. destruct (truthy _); simpl; [|done].
  by destruct (servers st !! _).
Qed.


(** C3 fails on the heartbeat path: on the empty registry, the heartbeat
    of an unknown server registers it with rank 1 and moves [next_rank]
    to 2, and nothing is written to [reference.json]; the rank request
    of the same server writes the roster it leaves. *)
Theorem heartbeat_registers_without_saving :
  let data : dict := {[ "user" := VStr "server_a" ]} in
  let now := Qc_of_Z 100 in
  let after_heartbeat := (handle_heartbeat data now init).2 in
  let after_rank := (handle_rank_request data now init).2 in
  servers after_heartbeat = {[ VStr "server_a" := Info 1 now ]}
  ∧ next_rank after_heartbeat = 2
  ∧ stdout after_heartbeat = [ViaHeartbeat (VStr "server_a") 1]
  ∧ reference_json after_heartbeat = None
  ∧ reference_json after_rank
    = Some (Snapshot {[ VStr "server_a" := Info 1 now ]} 2 now).
Proof.
  intros data now after_heartbeat after_rank.
  repeat apply conj; reflexivity.
Qed.

(** What the missing save costs: the registry stops before anything else
    saves, a new process starts from the file, and the rank 1 that the
    heartbeat gave to [server_a] is given to [server_b]. *)
Lemma heartbeat_registration_lost_at_restart :
  let beat : dict := {[ "user" := VStr "server_a" ]} in
  let ask : dict := {[ "user" := VStr "server_b" ]} in
  let before := (handle_heartbeat beat (Qc_of_Z 100) init).2 in
  let restarted := _load_state (Qc_of_Z 200) (reference_json before) in
  rank <$> servers before !! VStr "server_a" = Some 1
  ∧ Messaging.r_data (handle_rank_request ask (Qc_of_Z 201) restarted).1
    = RankData 1.
Proof. by vm_compute. Qed.

(** *** Eviction *)




Lemma expired_spec now i :
  expired now i = true ↔ (HEARTBEAT_TIMEOUT < now - last_heartbeat i)%Qc.
Proof. unfold expired. apply bool_decide_eq_true. Qed.




End registry_handlers.

(** ** Registry: ranks *)

Section registry_ranks.
Import ReferenceServer.

Lemma registrations_app out1 out2 :
  registrations (out1 ++ out2) = registrations out1 ++ registrations out2.
Proof. apply omap_app. Qed.

Lemma registrations_Removendo names :
  registrations (Removendo <$> names) = [].
Proof. by induction names. Qed.

Lemma inv_on_init : inv_on ∅ 1 [].
Proof. split; [done|]. split; [done|]. intros u i. by rewrite lookup_empty. Qed.

Lemma inv_on_refresh m n regs u i now :
  inv_on m n regs → m !! u = Some i →
  inv_on (<[u := Info (rank i) now]> m) n regs.
Proof.
  intros (Hranks & Hn & Hm) Hu. split; [done|]. split; [done|].
  intros u' i'. rewrite lookup_insert. case_decide as Hu'.
  - intros [= <-]. subst u'. simpl. by apply (Hm u i).
  - apply Hm.
Qed.

Lemma inv_on_alloc m n regs u now :
  inv_on m n regs →
  inv_on (<[u := Info n now]> m) (n + 1) (regs ++ [(u, n)]).
Proof.
  intros (Hranks & Hn & Hm). split; [|split].
  - rewrite fmap_app, length_app, Hranks. simpl.
    rewrite Nat.add_1_r, seqZ_S. by rewrite Hn.
  - rewrite length_app. simpl. lia.
  - intros u' i'. rewrite lookup_insert, elem_of_app. case_decide as Hu'.
    + intros [= <-]. subst u'. right. by apply list_elem_of_singleton.
    + intros Hi'. left. by apply Hm.
Qed.

Lemma inv_on_delete m n regs names :
  inv_on m n regs → inv_on (foldr delete m names) n regs.
Proof.
  intros (Hranks & Hn & Hm). split; [done|]. split; [done|].
  intros u i [_ Hi]%lookup_foldr_delete_Some. by apply Hm.
Qed.

(** Two registrations with the same rank are the same registration. *)
Lemma inv_on_rank_inj m n regs u1 u2 k :
  inv_on m n regs → (u1, k) ∈ regs → (u2, k) ∈ regs → u1 = u2.
Proof.
  intros (Hranks & _ & _).
  assert (NoDup regs.*2) as Hnodup by (rewrite Hranks; apply NoDup_seqZ).
  clear Hranks. induction regs as [|[u k'] regs IH]; simpl in *.
  - by intros ?%elem_of_nil.
  - apply NoDup_cons in Hnodup as [Hk' Hnodup].
    assert (∀ u0, (u0, k') ∉ regs) as Hfresh.
    { intros u0 Hin. apply Hk'. apply list_elem_of_fmap. by exists (u0, k'). }
    intros [E1|H1]%elem_of_cons [E2|H2]%elem_of_cons.
    + congruence.
    + injection E1 as -> ->. by destruct (Hfresh u2).
    + injection E2 as -> ->. by destruct (Hfresh u1).
    + by apply IH.
Qed.

(** What a step keeps: the invariant, the registrations printed before
    it, and, when the response carries a rank, the registration of that
    rank to the requester. *)
Lemma handle_rank_request_inv data now st :
  roster_inv st →
  let res := handle_rank_request data now st in
  roster_inv res.2
  ∧ registrations (stdout st) `prefix_of` registrations (stdout res.2)
  ∧ ∀ k, Messaging.r_data res.1 = RankData k →
         (dict_get data "user" (VStr ""), k) ∈ registrations (stdout res.2).
Proof.
  intros Hinv. unfold handle_rank_request.
  destruct (truthy _); simpl; [|done].
  destruct (servers st !! _) as [i|] eqn:Hu; unfold roster_inv; simpl.
  - split; [by apply inv_on_refresh|]. split; [done|].
    intros k [= <-]. by apply Hinv.
  - rewrite registrations_app. simpl.
    split; [by apply inv_on_alloc|]. split; [by apply prefix_app_r|].
    intros k [= <-]. apply elem_of_app. right.
    by apply list_elem_of_singleton.
Qed.

Lemma handle_heartbeat_inv data now st :
  roster_inv st →
  let res := handle_heartbeat data now st in
  roster_inv res.2
  ∧ registrations (stdout st) `prefix_of` registrations (stdout res.2)
  ∧ ∀ k, Messaging.r_data res.1 ≠ RankData k.
Proof.
  intros Hinv. unfold handle_heartbeat.
  destruct (truthy _); simpl; [|done].
  destruct (servers st !! _) as [i|] eqn:Hu; unfold roster_inv; simpl.
  - split; [by apply inv_on_refresh|]. done.
  - rewrite registrations_app. simpl.
    split; [by apply inv_on_alloc|]. split; [by apply prefix_app_r|]. done.
Qed.

Lemma cleanup_inv now st :
  roster_inv st →
  roster_inv (_cleanup_inactive_servers now st)
  ∧ registrations (stdout (_cleanup_inactive_servers now st))
    = registrations (stdout st).
Proof.
  intros Hinv. unfold _cleanup_inactive_servers.
  set (inactive := (filter _ (map_to_list (servers st))).*1).
  assert (registrations (stdout st ++ (Removendo <$> inactive))
          = registrations (stdout st)) as Hregs.
  { by rewrite registrations_app, registrations_Removendo, app_nil_r. }
  assert (inv_on (foldr delete (servers st) inactive) (next_rank st)
            (registrations (stdout st ++ (Removendo <$> inactive)))).
  { rewrite Hregs. by apply inv_on_delete. }
  by destruct inactive.
Qed.

Lemma serve_inv service data now st r st' :
  roster_inv st →
  serve service data now st = Some (r, st') →
  roster_inv st'
  ∧ registrations (stdout st) `prefix_of` registrations (stdout st')
  ∧ ∀ k, Messaging.r_data r = RankData k →
         (dict_get data "user" (VStr ""), k) ∈ registrations (stdout st').
Proof.
  intros Hinv. unfold serve.
  destruct (dict_get data "clock" _) as [received|]; [|done].
  set (st1 := Registry _ _ _ _ _).
  assert (roster_inv st1) as Hinv1 by done.
  change (stdout st) with (stdout st1).
  intros [= Hres].
  apply (f_equal fst) in Hres as Hr. apply (f_equal snd) in Hres as Hst.
  cbn [fst snd] in Hr, Hst. subst r st'. clear Hres.
  repeat case_bool_decide.
  - by apply handle_rank_request_inv.
  - done.
  - destruct (handle_heartbeat_inv data now st1 Hinv1) as (? & ? & Hk).
    split; [done|]. split; [done|]. intros k ?. by destruct (Hk k).
  - done.
Qed.

Lemma run_inv evs st :
  roster_inv st →
  roster_inv (run evs st).2
  ∧ registrations (stdout st) `prefix_of` registrations (stdout (run evs st).2)
  ∧ ∀ service data r k,
      (service, data, r) ∈ (run evs st).1 →
      Messaging.r_data r = RankData k →
      (dict_get data "user" (VStr ""), k)
      ∈ registrations (stdout (run evs st).2).
Proof.
  revert st. induction evs as [|[service data now|now] evs IH];
    intros st Hinv; simpl.
  - split; [done|]. split; [done|]. by intros ???? ?%elem_of_nil.
  - destruct (serve service data now st) as [[r st1]|] eqn:Hserve; simpl.
    + destruct (serve_inv _ _ _ _ _ _ Hinv Hserve) as (Hinv1 & Hpre1 & Hr).
      destruct (IH st1 Hinv1) as (Hinv2 & Hpre2 & Htr).
      destruct (run evs st1) as [tr st2]. simpl in *.
      split; [done|]. split; [by etrans|].
      intros service' data' r' k [[= -> -> ->]|Hin]%elem_of_cons Hk.
      * eapply elem_of_prefix; [|done]. by apply Hr.
      * by eapply Htr.
    + split; [done|]. split; [done|]. by intros ???? ?%elem_of_nil.
  - destruct (cleanup_inv now st Hinv) as [Hinv1 Hregs].
    destruct (IH _ Hinv1) as (Hinv2 & Hpre2 & Htr).
    split; [done|]. split; [by rewrite <-Hregs|]. done.
Qed.

(** C5: after any sequence of messages and cleanups processed from the
    empty registry, the ranks printed at the registrations (by rank
    request or by heartbeat) are 1, 2, 3, ... in this order; no rank was
    registered to two names; two rank responses that carry the same rank
    answered requests of the same name; and no two names of the roster
    hold the same rank. *)
Theorem rank_uniqueness (evs : list event) :
  let trace := (run evs init).1 in
  let st := (run evs init).2 in
  let regs := registrations (stdout st) in
  regs.*2 = seqZ 1 (Z.of_nat (length regs))
  ∧ next_rank st = 1 + Z.of_nat (length regs)
  ∧ (∀ u1 u2 k, (u1, k) ∈ regs → (u2, k) ∈ regs → u1 = u2)
  ∧ (∀ s1 d1 r1 s2 d2 r2 k,
       (s1, d1, r1) ∈ trace → (s2, d2, r2) ∈ trace →
       Messaging.r_data r1 = RankData k →
       Messaging.r_data r2 = RankData k →
       dict_get d1 "user" (VStr "") = dict_get d2 "user" (VStr ""))
  ∧ (∀ u1 u2 i1 i2,
       servers st !! u1 = Some i1 → servers st !! u2 = Some i2 →
       rank i1 = rank i2 → u1 = u2).
Proof.
  intros trace st regs.
  destruct (run_inv evs init inv_on_init) as (Hinv & _ & Htrace).
  fold st regs trace in Hinv, Htrace.
  assert (∀ u1 u2 k, (u1, k) ∈ regs → (u2, k) ∈ regs → u1 = u2) as Hinj.
  { intros u1 u2 k. by eapply inv_on_rank_inj. }
  destruct Hinv as (Hranks & Hnext & Hroster).
  split; [done|]. split; [done|]. split; [done|]. split.
  - intros s1 d1 r1 s2 d2 r2 k H1 H2 Hk1 Hk2.
    apply (Hinj _ _ k); by eapply Htrace.
  - intros u1 u2 i1 i2 H1 H2 Hrank.
    apply (Hinj _ _ (rank i1)); [by apply Hroster|].
    rewrite Hrank. by apply Hroster.
Qed.

Lemma rank_uniqueness_witness :
  let evs :=
    [ Message "rank" {[ "user" := VStr "server_a" ]} (Qc_of_Z 1);
      Message "heartbeat" {[ "user" := VStr "server_b" ]} (Qc_of_Z 2);
      Cleanup (Qc_of_Z 40);
      Message "rank" {[ "user" := VStr "server_a" ]} (Qc_of_Z 41);
      Message "rank" {[ "user" := VStr "server_b" ]} (Qc_of_Z 42) ] in
  let regs := registrations (stdout (run evs init).2) in
  regs = [ (VStr "server_a", 1); (VStr "server_b", 2); (VStr "server_a", 3);
           (VStr "server_b", 4) ]
  ∧ regs.*2 = seqZ 1 4
  ∧ (∀ u, (u, 3) ∈ regs → u = VStr "server_a").
Proof.
  intros evs regs.
  destruct (rank_uniqueness evs) as (Hranks & _ & Hinj & _).
  split; [by vm_compute|]. split; [exact Hranks|].
  intros u Hu. apply (Hinj u (VStr "server_a") 3 Hu).
  vm_compute. do 2 right. by left.
Defined.

End registry_ranks.

(** ** Berkeley: offsets from the mean *)

Section berkeley.
Import BerkeleySynchronizer.

Lemma sum_empty : sum ∅ = 0%Qc.
Proof. apply map_fold_empty. Qed.

Lemma sum_insert (m : gmap string Qc) i t :
  m !! i = None → sum (<[i := t]> m) = (sum m + t)%Qc.
Proof.
  intros Hi. unfold sum. rewrite map_fold_insert_L; [done| |done].
  intros. ring.
Qed.

Lemma len_empty : len ∅ = 0%Qc.
Proof. unfold len. by rewrite map_size_empty, <-Z2Qc_inj_0. Qed.

Lemma len_insert (m : gmap string Qc) i t :
  m !! i = None → len (<[i := t]> m) = (len m + 1)%Qc.
Proof.
  intros Hi. unfold len. rewrite map_size_insert_None by done.
  by rewrite Nat2Z.inj_succ, <-Z.add_1_r, Z2Qc_inj_add, Z2Qc_inj_1.
Qed.

Lemma len_nonzero (m : gmap string Qc) : m ≠ ∅ → len m ≠ 0%Qc.
Proof.
  intros Hm Hlen. apply Hm, map_size_empty_iff.
  unfold len in Hlen. rewrite <-Z2Qc_inj_0 in Hlen.
  apply Z2Qc_inj in Hlen. lia.
Qed.

(** The sum of the differences to a constant. *)
Lemma sum_offsets_from (a : Qc) (m : gmap string Qc) :
  sum ((λ t, a - t)%Qc <$> m) = (len m * a - sum m)%Qc.
Proof.
  induction m as [|i t m Hi IH] using map_ind.
  - rewrite fmap_empty, sum_empty, len_empty. ring.
  - rewrite fmap_insert, !sum_insert, len_insert, IH; [ring|done..|].
    by rewrite lookup_fmap, Hi.
Qed.

(** [sum(timestamps.values())] is the sum of the samples, and
    [len(timestamps)] their number. *)
Lemma sum_samples (m : gmap string Qc) :
  sum m = samples_sum (map_to_list m).*2.
Proof.
  unfold sum, samples_sum. rewrite map_fold_foldr.
  induction (map_to_list m) as [|[i t] l IH]; [done|].
  cbn. rewrite IH. ring.
Qed.

Lemma len_samples (m : gmap string Qc) :
  len m = Qc_of_Z (Z.of_nat (length (map_to_list m).*2)).
Proof. unfold len. by rewrite length_fmap, length_map_to_list. Qed.

(** C7: on a non-empty map of samples, [calculate_offsets] gives to each
    sampled server, and to no other, the arithmetic mean of the samples
    (their sum divided by their number) minus its own sample; the
    offsets sum to zero. *)
Theorem calculate_offsets_mean (timestamps : gmap string Qc) :
  timestamps ≠ ∅ →
  let samples := (map_to_list timestamps).*2 in
  let mu := arithmetic_mean samples in
  let offsets := calculate_offsets timestamps in
  (∀ server_name,
     offsets !! server_name
     = (λ timestamp, mu - timestamp)%Qc <$> timestamps !! server_name)
  ∧ samples_sum (map_to_list offsets).*2 = 0%Qc.
Proof.
  intros Hne samples mu offsets. subst offsets. unfold calculate_offsets.
  rewrite bool_decide_eq_false_2 by done.
  assert ((sum timestamps / len timestamps)%Qc = mu) as ->.
  { unfold mu, arithmetic_mean, samples.
    by rewrite <-sum_samples, <-len_samples. }
  split.
  - intros server_name. apply lookup_fmap.
  - rewrite <-sum_samples, sum_offsets_from.
    unfold mu, arithmetic_mean, samples.
    rewrite <-sum_samples, <-len_samples.
    rewrite Qcmult_div_r by by apply len_nonzero. ring.
Qed.

(** The round of the specification: the coordinator at [t0], one peer
    2 s ahead and one 1 s behind. *)
Lemma calculate_offsets_mean_witness :
  let timestamps : gmap string Qc :=
    {[ "coordinator" := Qc_of_Z 100; "peer_1" := Qc_of_Z 102;
       "peer_2" := Qc_of_Z 99 ]} in
  let mu := Q2Qc (301 # 3) in
  arithmetic_mean (map_to_list timestamps).*2 = mu
  ∧ calculate_offsets timestamps
    = {[ "coordinator" := Q2Qc (1 # 3); "peer_1" := Q2Qc (-5 # 3);
         "peer_2" := Q2Qc (4 # 3) ]}
  ∧ (∀ server_name,
       calculate_offsets timestamps !! server_name
       = (λ timestamp, mu - timestamp)%Qc <$> timestamps !! server_name)
  ∧ samples_sum (map_to_list (calculate_offsets timestamps)).*2 = 0%Qc.
Proof.
  intros timestamps mu.
  assert (arithmetic_mean (map_to_list timestamps).*2 = mu) as Hmu
    by (apply (bool_decide_unpack _); vm_compute; exact I).
  destruct (calculate_offsets_mean timestamps) as (Hoffsets & Hzero).
  { intros Hempty. apply (f_equal (lookup "peer_1")) in Hempty.
    vm_compute in Hempty. discriminate Hempty. }
  rewrite Hmu in Hoffsets.
  split; [exact Hmu|]. split; [|split; [exact Hoffsets|exact Hzero]].
  apply (bool_decide_unpack _); vm_compute; exact I.
Defined.

End berkeley.

(** ** Replication: the merges *)

Section add_new.
Import ReplicationManager.
Context `{Countable K} (key : dict → option K).
Implicit Types (new existing : list dict) (ks : gset K).

(** The keys of a stored list, as the merges collect them. *)
Local Abbreviation keys l := (omap key l).
Local Abbreviation key_set l := (list_to_set (omap key l) : gset K).

Lemma keys_cons r l :
  keys (r :: l)
  = match key r with Some k => k :: keys l | None => keys l end.
Proof. done. Qed.

(** A payload whose keys are all known adds nothing. *)
Lemma add_new_covered new existing ks :
  (∀ k, k ∈ keys new → k ∈ ks) → add_new key new existing ks = existing.
Proof.
  induction new as [|r new IH]; intros Hcov; simpl; [done|].
  assert (∀ k, k ∈ keys new → k ∈ ks) as Hcov'.
  { intros k [r' [Hr' Hk]]%list_elem_of_omap. apply Hcov.
    apply list_elem_of_omap. exists r'. split; [by right|done]. }
  destruct (key r) as [k|] eqn:Hk; [|by apply IH].
  rewrite bool_decide_eq_true_2; [by apply IH|].
  apply Hcov, list_elem_of_omap. exists r. split; [by left|done].
Qed.

(** The merge appends to the stored list; what it appends are records of
    the payload, one for each key of the payload that was not known. *)
Lemma add_new_spec new existing ks :
  ∃ added,
    add_new key new existing ks = existing ++ added
    ∧ added ⊆ new
    ∧ NoDup (keys added)
    ∧ ∀ k, k ∈ keys added ↔ k ∈ keys new ∧ k ∉ ks.
Proof.
  revert existing ks. induction new as [|r new IH]; intros existing ks.
  { exists []. rewrite app_nil_r. split; [done|]. split; [done|].
    split; [constructor|]. intros k.
    split; [by intros ?%elem_of_nil|by intros [?%elem_of_nil _]]. }
  cbn [add_new]. destruct (key r) as [k|] eqn:Hk.
  - case_bool_decide as Hin.
    + destruct (IH existing ks) as (added & -> & Hsub & Hnodup & Hkeys).
      exists added. split; [done|]. split; [set_solver|]. split; [done|].
      intros k'. rewrite Hkeys, keys_cons, Hk, elem_of_cons.
      split; [naive_solver|]. intros [[->|?] ?]; naive_solver.
    + destruct (IH (existing ++ [r]) ({[k]} ∪ ks))
        as (added & -> & Hsub & Hnodup & Hkeys).
      exists (r :: added). split; [by rewrite <-app_assoc|].
      split; [set_solver|]. rewrite !keys_cons, Hk. split.
      * apply NoDup_cons. split; [|done]. rewrite Hkeys. set_solver.
      * intros k'.
        rewrite !elem_of_cons, Hkeys, elem_of_union, elem_of_singleton.
        destruct (decide (k' = k)) as [->|]; naive_solver.
  - destruct (IH existing ks) as (added & -> & Hsub & Hnodup & Hkeys).
    exists added. split; [done|]. split; [set_solver|]. split; [done|].
    intros k'. by rewrite Hkeys, keys_cons, Hk.
Qed.

(** The keys known when a second payload is merged: those of the store
    and those of the first payload. *)
Lemma key_set_after_merge stored new existing k :
  stored ≡ₚ add_new key new existing (key_set existing) →
  k ∈ key_set stored ↔ k ∈ keys existing ∨ k ∈ keys new.
Proof.
  intros Hstored.
  destruct (add_new_spec new existing (key_set existing))
    as (added & Hadd & _ & _ & Hkeys).
  rewrite elem_of_list_to_set, Hstored, Hadd, omap_app, elem_of_app, Hkeys.
  rewrite elem_of_list_to_set.
  destruct (decide (k ∈ keys existing)); naive_solver.
Qed.

(** Merging the same payload again changes nothing, also when the stored
    list was reordered in between. *)
Lemma add_new_again stored new existing :
  stored ≡ₚ add_new key new existing (key_set existing) →
  add_new key new stored (key_set stored) = stored.
Proof.
  intros Hstored. apply add_new_covered. intros k Hk.
  apply (key_set_after_merge _ _ _ _ Hstored). by right.
Qed.



End add_new.

Section sort.
Import ReplicationManager.

Lemma value_lt_asym a b : value_lt a b = true → value_lt b a = false.
Proof.
  destruct a as [x|x], b as [y|y]; simpl; try done.
  - rewrite bool_decide_eq_true, bool_decide_eq_false.
    intros Hxy Hyx. apply (Qclt_not_le _ _ Hxy). by apply Qclt_le_weak.
  - unfold String.ltb. rewrite (String.compare_antisym y x).
    by destruct (String.compare x y).
Qed.

Lemma pair_lt_asym a b : pair_lt a b = true → pair_lt b a = false.
Proof.
  unfold pair_lt. repeat case_bool_decide; try congruence;
    apply value_lt_asym.
Qed.

(** On numeric keys, [key_le] is the order of the pairs
    [(timestamp, clock)]. *)
Lemma key_le_numeric a b ta ca tb cb :
  sort_key a = (VNum ta, VNum ca) → sort_key b = (VNum tb, VNum cb) →
  key_le a b ↔ (ta < tb)%Qc ∨ (ta = tb ∧ (ca ≤ cb)%Qc).
Proof.
  intros Ha Hb. unfold key_le, pair_lt. rewrite Ha, Hb. simpl.
  case_bool_decide as Heq; rewrite bool_decide_eq_false.
  - injection Heq as ->. rewrite <-Qcle_ngt. split; [by right|].
    intros [Hlt|[_ ?]]; [|done]. by destruct (Qclt_not_eq _ _ Hlt).
  - rewrite <-Qcle_ngt. split.
    + intros Hle. left. apply Qcle_lt_or_eq in Hle as [?| ->]; [done|].
      by destruct Heq.
    + intros [?|[-> _]]; [by apply Qclt_le_weak|by destruct Heq].
Qed.

Lemma insert_sorted_perm x l : insert_sorted x l ≡ₚ x :: l.
Proof.
  induction l as [|y l IH]; simpl; [done|].
  destruct (pair_lt _ _); [|done]. by rewrite IH, Permutation_swap.
Qed.

Lemma sort_perm l : sort l ≡ₚ l.
Proof.
  induction l as [|x l IH]; simpl; [done|].
  by rewrite insert_sorted_perm, IH.
Qed.

Lemma insert_sorted_Sorted x l :
  Sorted key_le l → Sorted key_le (insert_sorted x l).
Proof.
  induction 1 as [|y l Hsorted IH Hhd]; simpl.
  { repeat constructor. }
  destruct (pair_lt (sort_key y) (sort_key x)) eqn:Hlt.
  - constructor; [done|].
    destruct Hhd as [|z l Hyz]; simpl.
    + constructor. by apply pair_lt_asym.
    + destruct (pair_lt (sort_key z) (sort_key x));
        constructor; [done|by apply pair_lt_asym].
  - constructor; [by constructor|]. by constructor.
Qed.

(** The stored messages are sorted after a sort. *)
Lemma sort_Sorted l : Sorted key_le (sort l).
Proof.
  induction l as [|x l IH]; simpl; [constructor|].
  by apply insert_sorted_Sorted.
Qed.

(** The sort is stable: a sorted list is left as it is. *)
Lemma sort_Sorted_id l : Sorted key_le l → sort l = l.
Proof.
  induction 1 as [|x l Hsorted IH Hhd]; simpl; [done|]. rewrite IH.
  destruct Hhd as [|y l Hxy]; simpl; [done|]. by rewrite Hxy.
Qed.

Lemma numeric_key_le a b :
  numeric_keys a → numeric_keys b →
  ∃ ta ca tb cb,
    sort_key a = (VNum ta, VNum ca) ∧ sort_key b = (VNum tb, VNum cb)
    ∧ (key_le a b ↔ (ta < tb)%Qc ∨ (ta = tb ∧ (ca ≤ cb)%Qc)).
Proof.
  intros (ta & ca & Ha) (tb & cb & Hb). exists ta, ca, tb, cb.
  split; [done|]. split; [done|]. by apply key_le_numeric.
Qed.




End sort.

Section merges.
Import ReplicationManager.

Lemma message_ids_omap (l : list dict) :
  _get_message_id <$> l = omap (λ msg, Some (_get_message_id msg)) l.
Proof. induction l as [|m l IH]; csimpl; by f_equal. Qed.

(** The messages stored by a merge: the sorted list of the stored ones
    followed by the new ones. *)
Lemma _merge_messages_stored new st :
  messages_json (_merge_messages new st)
  ≡ₚ add_new (λ msg, Some (_get_message_id msg)) new (messages_json st)
       (list_to_set
          (omap (λ msg, Some (_get_message_id msg)) (messages_json st))).
Proof.
  unfold _merge_messages. simpl. by rewrite sort_perm, message_ids_omap.
Qed.

Lemma _merge_messages_again new stored :
  messages_json (_merge_messages new stored)
  = sort (add_new (λ msg, Some (_get_message_id msg)) new
            (messages_json stored)
            (list_to_set
               (omap (λ msg, Some (_get_message_id msg))
                  (messages_json stored)))).
Proof. unfold _merge_messages. simpl. by rewrite message_ids_omap. Qed.





(** C9: merging the same payload a second time leaves the stored list of
    logins, of channels and of messages exactly as the first merge left
    it.  (For the messages, the timestamps and clocks are numbers.) *)
Theorem merge_idempotent (payload : list dict) (st : store) :
  _merge_logins payload (_merge_logins payload st)
  = _merge_logins payload st
  ∧ _merge_channels payload (_merge_channels payload st)
    = _merge_channels payload st
  ∧ (Forall numeric_keys (messages_json st ++ payload) →
     _merge_messages payload (_merge_messages payload st)
     = _merge_messages payload st).
Proof.
  split; [|split].
  - unfold _merge_logins, field_set. simpl. f_equal.
    by apply (add_new_again _ _ payload (logins_json st)).
  - unfold _merge_channels, field_set. simpl. f_equal.
    by apply (add_new_again _ _ payload (channels_json st)).
  - intros _.
    assert (messages_json (_merge_messages payload
                             (_merge_messages payload st))
            = messages_json (_merge_messages payload st)) as Hsame.
    { rewrite _merge_messages_again.
      rewrite (add_new_again _ _ payload (messages_json st))
        by apply _merge_messages_stored.
      apply sort_Sorted_id. unfold _merge_messages. simpl.
      apply sort_Sorted. }
    unfold _merge_messages in *. simpl in *. by f_equal.
Qed.

Lemma merge_idempotent_witness :
  let m1 : dict :=
    {[ "type" := VStr "publish"; "user" := VStr "alice";
       "channel" := VStr "geral"; "message" := VStr "m1";
       "timestamp" := VInt 20; "clock" := VInt 2 ]} in
  let m2 : dict :=
    {[ "type" := VStr "message"; "src" := VStr "alice";
       "dst" := VStr "bob"; "message" := VStr "hi";
       "timestamp" := VInt 10; "clock" := VInt 5 ]} in
  let st := Store [] [] [m1] in
  messages_json (_merge_messages [m2; m1] st) = [m2; m1]
  ∧ _merge_messages [m2; m1] (_merge_messages [m2; m1] st)
    = _merge_messages [m2; m1] st.
Proof.
  intros m1 m2 st. split; [reflexivity|].
  apply (merge_idempotent [m2; m1] st).
  repeat constructor; eexists _, _; by vm_compute.
Defined.





End merges.

(** * Further properties *)

(** Closed goals over decidable statements are settled by evaluation. *)
Ltac evaluate := apply (bool_decide_unpack _); vm_compute; exact I.

(** ** Logical clock *)

Section lamport_clock.
Import LogicalClock LamportClock.

Lemma Qclt_succ (x : Qc) : (x < x + 1)%Qc.
Proof.
  rewrite <-(Qcplus_0_r x) at 1. by apply Qcplus_lt_mono_l.
Qed.

Lemma py_max_ge (a b : Qc) : (a ≤ py_max a b)%Qc ∧ (b ≤ py_max a b)%Qc.
Proof.
  unfold py_max. case_bool_decide as Hlt.
  - split; [by apply Qclt_le_weak|done].
  - split; [done|by apply Qcle_ngt].
Qed.

Lemma apply_exceeds o c :
  (counter c < (apply o c).1)%Qc
  ∧ counter (apply o c).2 = (apply o c).1
  ∧ ∀ r, o = Update r → (r < (apply o c).1)%Qc.
Proof.
  destruct o as [|r]; simpl.
  - split; [apply Qclt_succ|]. split; [done|]. by intros.
  - destruct (py_max_ge (counter c) r) as [Hc Hr].
    split; [eapply Qcle_lt_trans; [done|apply Qclt_succ]|].
    split; [done|]. intros ? [= <-].
    eapply Qcle_lt_trans; [done|apply Qclt_succ].
Qed.

Lemma headroom_of_Z (room n : Z) :
  - 2 ^ 53 ≤ n → n + room ≤ 2 ^ 53 → headroom room (Qc_of_Z n).
Proof. intros Hlo Hhi. by exists n. Qed.

Lemma headroom_weaken (room room' : Z) (q : Qc) :
  room' ≤ room → headroom room q → headroom room' q.
Proof. intros Hle (n & -> & Hlo & Hhi). exists n. split; [done|lia]. Qed.

Lemma headroom_succ (room : Z) (q : Qc) :
  headroom (room + 1) q → headroom room (q + 1)%Qc.
Proof.
  intros (n & -> & Hlo & Hhi). exists (n + 1).
  rewrite Z2Qc_inj_add, Z2Qc_inj_1. split; [done|lia].
Qed.

Lemma headroom_py_max (room : Z) (a b : Qc) :
  headroom room a → headroom room b → headroom room (py_max a b).
Proof. intros Ha Hb. unfold py_max. by case_bool_decide. Qed.

Lemma apply_headroom (room : Z) o c :
  headroom (room + 1) (counter c) →
  (∀ r, o = Update r → headroom (room + 1) r) →
  headroom room (apply o c).1.
Proof.
  intros Hc Hr. destruct o as [|r]; simpl.
  - by apply headroom_succ.
  - apply headroom_succ, headroom_py_max; [done|by apply Hr].
Qed.

(** X1: the values that a clock returns along any sequence of increments and
    updates are strictly increasing, all above the counter it started
    from, and the value returned by an update is above the value
    received, as long as the counter at the start and the values received
    are integers from [-2^53] on that leave room for as many ticks as
    there are operations up to [2^53]; the values returned are then
    integers of that range too. *)
Theorem clock_values_increase (ops : list op) (c : t) :
  let room := Z.of_nat (length ops) in
  headroom room (counter c) →
  (∀ r, Update r ∈ ops → headroom room r) →
  Forall (λ n, (counter c < n)%Qc) (returned ops c)
  ∧ StronglySorted Qclt (returned ops c)
  ∧ (∀ i r, ops !! i = Some (Update r) →
            ∃ n, returned ops c !! i = Some n ∧ (r < n)%Qc)
  ∧ Forall (headroom 0) (returned ops c).
Proof.
  intros room Hc Hr.
  assert (Forall (headroom 0) (returned ops c)) as Hroom.
  { subst room. revert c Hc Hr.
    induction ops as [|o ops IH]; intros c Hc Hr; simpl; [constructor|].
    rewrite length_cons, Nat2Z.inj_succ, <-Z.add_1_r in Hc, Hr.
    assert (headroom (Z.of_nat (length ops)) (apply o c).1) as Ho.
    { apply apply_headroom; [done|]. intros r ->. apply Hr. left. }
    destruct (apply_exceeds o c) as (_ & Hcounter & _).
    constructor.
    - apply (headroom_weaken (Z.of_nat (length ops))); [lia|done].
    - apply IH; [by rewrite Hcounter|].
      intros r Hin. apply (headroom_weaken (Z.of_nat (length ops) + 1));
        [lia|]. apply Hr. by right. }
  split; [|split; [|split; [|done]]]; clear room Hc Hr Hroom.
  - revert c. induction ops as [|o ops IH]; intros c; simpl; [constructor|].
    destruct (apply_exceeds o c) as (Hgt & Hc & _).
    constructor; [done|]. eapply Forall_impl; [apply IH|].
    intros n Hn. simpl in Hn. rewrite Hc in Hn. by etrans.
  - revert c. induction ops as [|o ops IH]; intros c; simpl; [constructor|].
    destruct (apply_exceeds o c) as (_ & Hc & _).
    constructor; [apply IH|]. rewrite <-Hc. clear IH.
    generalize ((apply o c).2). clear. intros c.
    revert c. induction ops as [|o ops IH]; intros c; simpl; [constructor|].
    destruct (apply_exceeds o c) as (Hgt & Hc & _).
    constructor; [done|]. eapply Forall_impl; [apply IH|].
    intros n Hn. simpl in Hn. rewrite Hc in Hn. by etrans.
  - revert c. induction ops as [|o ops IH]; intros c; simpl.
    { intros i r Hi. by rewrite lookup_nil in Hi. }
    destruct (apply_exceeds o c) as (_ & _ & Hupd).
    intros [|i] r Hi; simpl in *.
    + injection Hi as ->. eauto.
    + by apply IH.
Qed.

Lemma clock_values_increase_witness :
  let ops := [Increment; Update (Qc_of_Z 7); Update (Qc_of_Z 2); Increment] in
  returned ops init = [Qc_of_Z 1; Qc_of_Z 8; Qc_of_Z 9; Qc_of_Z 10]
  ∧ (∃ n, returned ops init !! 1%nat = Some n ∧ (Qc_of_Z 7 < n)%Qc)
  ∧ Forall (headroom 0) (returned ops init).
Proof.
  intros ops. split; [evaluate|].
  destruct (clock_values_increase ops init) as (_ & _ & Hupdate & Hroom).
  - exists 0. split; [symmetry; apply Z2Qc_inj_0|simpl; lia].
  - intros r Hin. unfold ops in Hin.
    rewrite !elem_of_cons, elem_of_nil in Hin.
    destruct Hin as [[=]|[[= ->]|[[= ->]|[[=]|[]]]]];
      apply headroom_of_Z; simpl; lia.
  - split; [|exact Hroom]. apply (Hupdate 1%nat). reflexivity.
Defined.

End lamport_clock.

(** ** Persistence: writing and reading back *)

Section persistence.
Import DataStore Persistence.



(** The list that [append] builds on: the stored list; the stored
    document alone when it is not a list; nothing when the file is
    missing or cannot be decoded as JSON. *)
Lemma append_spec (d : data_dir) filename item :
  filename ∉ unwritable d →
  ∀ previous,
    match files d !! filename with
    | None => previous = []
    | Some (Document (PyList l)) => previous = l
    | Some (Document doc) => previous = [doc]
    | Some (Undecodable e) => caught e = true ∧ previous = []
    end →
    append d filename item
    = Ret (true,
           DataDir (<[filename := Document (PyList (previous ++ [item]))]>
                      (files d)) (unwritable d) (interrupted d)).
Proof.
  intros Hw previous Hprev. unfold append, load, save.
  rewrite bool_decide_eq_false_2 by done.
  destruct (files d !! filename) as [[doc|e]|]; simpl.
  - by destruct doc; subst.
  - destruct Hprev as [-> ->]. done.
  - by subst.
Qed.

(** X3: [append] on a writable name: a missing file becomes the list of the
    item; so does a file that does not decode as JSON, whose content is
    lost; a stored list gets the item at its end; a stored document that
    is not a list becomes the first element.  On a file that is not UTF-8
    [append] raises, and writes nothing. *)
Theorem append_builds_list (d : data_dir) (filename : string)
    (item : pyobj) :
  filename ∉ unwritable d →
  let after := λ l, Ret (true,
    DataDir (<[filename := Document (PyList l)]> (files d)) (unwritable d)
      (interrupted d)) in
  (files d !! filename = None → append d filename item = after [item])
  ∧ (files d !! filename = Some (Undecodable JSONDecodeError)
     → append d filename item = after [item])
  ∧ (∀ l, files d !! filename = Some (Document (PyList l))
          → append d filename item = after (l ++ [item]))
  ∧ (∀ doc, files d !! filename = Some (Document doc)
            → (∀ l, doc ≠ PyList l)
            → append d filename item = after [doc; item])
  ∧ (files d !! filename = Some (Undecodable UnicodeDecodeError)
     → append d filename item = Raise UnicodeDecodeError).
Proof.
  intros Hw after. subst after. simpl. split; [|split; [|split; [|split]]].
  - intros Hf. apply (append_spec d filename item Hw []). by rewrite Hf.
  - intros Hf. apply (append_spec d filename item Hw []). by rewrite Hf.
  - intros l Hf. apply (append_spec d filename item Hw l). by rewrite Hf.
  - intros doc Hf Hdoc. apply (append_spec d filename item Hw [doc]).
    rewrite Hf. destruct doc; try done. by destruct (Hdoc l).
  - intros Hf. unfold append, load. by rewrite Hf.
Qed.

Lemma append_builds_list_witness :
  let d := DataDir {[ "logins.json" := Undecodable JSONDecodeError;
                      "channels.json" := Document (PyDict ∅) ]} ∅ ∅ in
  append d "logins.json" (PyVal (VStr "x"))
  = Ret (true, DataDir (<["logins.json" :=
                           Document (PyList [PyVal (VStr "x")])]> (files d))
                 ∅ ∅)
  ∧ append d "channels.json" (PyVal (VStr "x"))
    = Ret (true, DataDir (<["channels.json" :=
                             Document (PyList [PyDict ∅; PyVal (VStr "x")])]>
                            (files d)) ∅ ∅).
Proof.
  intros d.
  destruct (append_builds_list d "logins.json" (PyVal (VStr "x")))
    as (_ & Hjson & _); [evaluate|].
  destruct (append_builds_list d "channels.json" (PyVal (VStr "x")))
    as (_ & _ & _ & Hdoc & _); [evaluate|].
  split; [by apply Hjson|]. apply Hdoc; [reflexivity|discriminate].
Defined.

(** X4: items appended one call after the other to a writable file that is
    missing or holds a list are all stored, after those of the file and
    in the order of the calls. *)
Theorem append_all_in_order (d : data_dir) (filename : string)
    (items : list pyobj) (l : list pyobj) :
  filename ∉ unwritable d →
  files d !! filename = Some (Document (PyList l))
  ∨ (files d !! filename = None ∧ l = [] ∧ items ≠ []) →
  ∃ d', append_all d filename items = Ret d'
        ∧ ∀ default, load (files d') filename default
                     = Ret (PyList (l ++ items)).
Proof.
  intros Hw Hfile.
  assert (∀ items d l, filename ∉ unwritable d →
            files d !! filename = Some (Document (PyList l)) →
            ∃ d', append_all d filename items = Ret d'
                  ∧ ∀ default, load (files d') filename default
                               = Ret (PyList (l ++ items))) as Hlist.
  { clear. intros items.
    induction items as [|item items IH]; intros d l Hw Hf; simpl.
    - exists d. split; [done|]. intros default. unfold load.
      by rewrite Hf, app_nil_r.
    - rewrite (append_spec d filename item Hw l) by by rewrite Hf.
      destruct (IH (DataDir (<[filename := Document (PyList (l ++ [item]))]>
                               (files d)) (unwritable d) (interrupted d))
                  (l ++ [item]))
        as (d' & Hrun & Hload); [done|apply lookup_insert_eq|].
      exists d'. split; [done|]. intros default.
      by rewrite Hload, <-app_assoc. }
  destruct Hfile as [Hf|(Hf & -> & Hitems)]; [by apply Hlist|].
  destruct items as [|item items]; [done|]. simpl.
  rewrite (append_spec d filename item Hw []) by by rewrite Hf.
  simpl. apply (Hlist items _ [item]); [done|apply lookup_insert_eq].
Qed.

Lemma append_all_in_order_witness :
  ∃ d', append_all (DataDir ∅ ∅ ∅) "logins.json"
          [PyVal (VStr "a"); PyVal (VStr "b"); PyVal (VStr "c")] = Ret d'
        ∧ ∀ default, load (files d') "logins.json" default
                     = Ret (PyList ([] ++ [PyVal (VStr "a"); PyVal (VStr "b");
                                          PyVal (VStr "c")])).
Proof.
  apply (append_all_in_order (DataDir ∅ ∅ ∅) "logins.json").
  - evaluate.
  - right. split; [reflexivity|]. split; [reflexivity|discriminate].
Defined.



End persistence.

(** ** Messaging: messages sent one after the other *)

Section successive_messages.
Import Messaging.

(** X6: two calls of [create_message] by one process whose clock is an
    integer from [-2^53] on with room for two ticks up to [2^53]: both
    return; the second envelope carries the clock of the first plus one;
    the first envelope keeps the values it was packed with, also when the
    second call reuses and overwrites the same dictionary. *)
Theorem successive_messages_clock s1 s2 (r1 r2 : loc) (d1 d2 : dict)
    (w : world) :
  heap w !! r1 = Some d1 → heap w !! r2 = Some d2 →
  let c := LogicalClock.counter (clock w) in
  LamportClock.headroom 2 c →
  ∃ e1 w1 e2 w2,
    create_message s1 r1 w = Some (e1, w1)
    ∧ create_message s2 r2 w1 = Some (e2, w2)
    ∧ data e1 !! "clock" = Some (VNum (c + 1)%Qc)
    ∧ data e2 !! "clock" = Some (VNum (c + 1 + 1)%Qc)
    ∧ (c + 1 < c + 1 + 1)%Qc
    ∧ heap w2 !! r2 = Some (data e2)
    ∧ LogicalClock.counter (clock w2) = (c + 1 + 1)%Qc.
Proof.
  intros H1 H2 c _.
  set (d1' := <["clock" := VNum (c + 1)%Qc]>
                (<["timestamp" := VNum (wall w)]> d1)).
  set (w1 := World (<[r1 := d1']> (heap w)) (LogicalClock.Make (c + 1)%Qc)
               (wall w)).
  assert (create_message s1 r1 w = Some (Envelope s1 d1', w1)) as Hfirst
    by by apply create_message_eq.
  assert (∃ d2', heap w1 !! r2 = Some d2') as [d2' H2'].
  { unfold w1. cbn [heap]. destruct (decide (r1 = r2)) as [->|Hne].
    - eexists. apply lookup_insert_eq.
    - exists d2. by rewrite lookup_insert_ne. }
  pose proof (create_message_eq s2 r2 d2' w1 H2') as Hsecond.
  cbn zeta in Hsecond. eexists _, _, _, _.
  split; [exact Hfirst|]. split; [exact Hsecond|]. cbn [data heap clock w1].
  split; [unfold d1'; apply lookup_insert_eq|].
  split; [apply lookup_insert_eq|].
  split; [apply Qclt_succ|]. split; [apply lookup_insert_eq|done].
Qed.

Lemma successive_messages_clock_witness :
  let w := World {[ 1%positive := {[ "user" := VStr "alice" ]} ]}
             (LogicalClock.Make (Qc_of_Z 4)) (Qc_of_Z 1000) in
  ∃ e1 w1 e2 w2,
    create_message "publish" 1%positive w = Some (e1, w1)
    ∧ create_message "publish" 1%positive w1 = Some (e2, w2)
    ∧ data e1 !! "clock" = Some (VNum (Qc_of_Z 4 + 1)%Qc)
    ∧ data e2 !! "clock" = Some (VNum (Qc_of_Z 4 + 1 + 1)%Qc)
    ∧ (Qc_of_Z 4 + 1 < Qc_of_Z 4 + 1 + 1)%Qc
    ∧ heap w2 !! 1%positive = Some (data e2)
    ∧ LogicalClock.counter (clock w2) = (Qc_of_Z 4 + 1 + 1)%Qc.
Proof.
  intros w.
  apply (successive_messages_clock "publish" "publish" 1%positive 1%positive
           {[ "user" := VStr "alice" ]} {[ "user" := VStr "alice" ]} w);
    [reflexivity|reflexivity|].
  exists 4. split; [reflexivity|lia].
Defined.

End successive_messages.

(** ** Registry: what a message changes *)

Section registry_messages.
Import ReferenceServer.



Lemma serve_cases service data now st r st' :
  serve service data now st = Some (r, st') →
  ∃ received st1,
    dict_get data "clock" (VInt 0) = VNum received
    ∧ st1 = Registry (servers st) (next_rank st)
              (LogicalClock.update (clock st) received).2
              (reference_json st) (stdout st)
    ∧ ((service = "rank" ∧ (r, st') = handle_rank_request data now st1)
       ∨ (service = "list" ∧ (r, st') = handle_list_request data now st1)
       ∨ (service = "heartbeat" ∧ (r, st') = handle_heartbeat data now st1)
       ∨ (service ≠ "rank" ∧ service ≠ "list" ∧ service ≠ "heartbeat"
          ∧ (r, st') = reply service "erro" NoData
                         (Some ("Serviço desconhecido: " +:+ service))
                         now st1)).
Proof.
  unfold serve. destruct (dict_get data "clock" _) as [received|]; [|done].
  intros [= Hres]. eexists _, _. split; [done|]. split; [done|].
  repeat case_bool_decide; naive_solver.
Qed.






Lemma handle_rank_request_clock data now st :
  Messaging.r_clock (handle_rank_request data now st).1
  = (LogicalClock.counter (clock st) + 1)%Qc
  ∧ LogicalClock.counter (clock (handle_rank_request data now st).2)
    = (LogicalClock.counter (clock st) + 1)%Qc.
Proof.
  unfold handle_rank_request. destruct (truthy _); simpl; [|done].
  by destruct (servers st !! _).
Qed.

Lemma handle_heartbeat_clock data now st :
  Messaging.r_clock (handle_heartbeat data now st).1
  = (LogicalClock.counter (clock st) + 1)%Qc
  ∧ LogicalClock.counter (clock (handle_heartbeat data now st).2)
    = (LogicalClock.counter (clock st) + 1)%Qc.
Proof.
  unfold handle_heartbeat. destruct (truthy _); simpl; [|done].
  by destruct (servers st !! _).
Qed.

(** X9: every response of the registry carries a clock above the clock of the
    message it answers and above the registry's own clock before the
    message, and the registry's clock is left at that value, as long as
    both clocks are integers from [-2^53] on with room for two ticks up
    to [2^53]. *)
Theorem serve_clock_exceeds service data now st r st' received :
  serve service data now st = Some (r, st') →
  dict_get data "clock" (VInt 0) = VNum received →
  LamportClock.headroom 2 received →
  LamportClock.headroom 2 (LogicalClock.counter (clock st)) →
  (received < Messaging.r_clock r)%Qc
  ∧ (LogicalClock.counter (clock st) < Messaging.r_clock r)%Qc
  ∧ LogicalClock.counter (clock st') = Messaging.r_clock r.
Proof.
  intros (received' & st1 & Hclock & -> & Hcase)%serve_cases Hreceived _ _.
  assert (received' = received) as -> by congruence.
  set (n := (LogicalClock.py_max (LogicalClock.counter (clock st)) received
             + 1)%Qc).
  assert (Messaging.r_clock r = (n + 1)%Qc
          ∧ LogicalClock.counter (clock st') = (n + 1)%Qc) as [-> ->].
  { destruct Hcase as [[_ Heq]|[[_ Heq]|[[_ Heq]|(_ & _ & _ & Heq)]]];
      apply (f_equal fst) in Heq as Hr; apply (f_equal snd) in Heq as Hst;
      cbn [fst snd] in Hr, Hst; subst r st'.
    - apply handle_rank_request_clock.
    - done.
    - apply handle_heartbeat_clock.
    - done. }
  destruct (py_max_ge (LogicalClock.counter (clock st)) received) as [Hc Hr].
  assert (∀ x, (x ≤ LogicalClock.py_max (LogicalClock.counter (clock st))
                     received)%Qc → (x < n + 1)%Qc) as Hlt.
  { intros x Hx. eapply Qcle_lt_trans; [done|].
    etrans; [apply Qclt_succ|]. apply Qclt_succ. }
  auto.
Qed.

Lemma serve_clock_exceeds_witness :
  ∃ r st',
    serve "list" {[ "clock" := VInt 41 ]} (Qc_of_Z 2) init = Some (r, st')
    ∧ (Qc_of_Z 41 < Messaging.r_clock r)%Qc.
Proof.
  destruct (serve "list" {[ "clock" := VInt 41 ]} (Qc_of_Z 2) init)
    as [[r st']|] eqn:Hserve; [|vm_compute in Hserve; discriminate Hserve].
  exists r, st'. split; [reflexivity|].
  apply (serve_clock_exceeds "list" {[ "clock" := VInt 41 ]} (Qc_of_Z 2) init
           r st' (Qc_of_Z 41) Hserve).
  - reflexivity.
  - exists 41. split; [reflexivity|lia].
  - exists 0. split; [symmetry; apply Z2Qc_inj_0|lia].
Defined.


End registry_messages.

(** ** Registry: cleanup and restart *)

Section registry_cleanup.
Import ReferenceServer.

Lemma cleanup_unfold now st :
  let inactive :=
    (filter (λ ni, expired now ni.2 = true) (map_to_list (servers st))).*1 in
  (inactive = [] ∧ _cleanup_inactive_servers now st
                   = Registry (servers st) (next_rank st) (clock st)
                       (reference_json st) (stdout st))
  ∨ (inactive ≠ []
     ∧ _cleanup_inactive_servers now st
       = Registry (foldr delete (servers st) inactive) (next_rank st)
           (clock st)
           (Some (Snapshot (foldr delete (servers st) inactive)
                    (next_rank st) now))
           (stdout st ++ (Removendo <$> inactive))).
Proof.
  intros inactive. unfold _cleanup_inactive_servers. fold inactive.
  destruct inactive as [|s l]; [left|right; done].
  split; [done|]. simpl. by rewrite app_nil_r.
Qed.




(** X12: a registry whose servers have strings as names, started from the
    file that [_save_state] wrote, has the servers, the ranks and the
    next rank of the saved state, every heartbeat being reset to the
    instant of the start; a cleanup up to 30 s after the start removes
    no server. *)
Theorem restart_restores_roster (st : t) (saved started : Qc) :
  (∀ s i, servers st !! s = Some i → ∃ name, s = VStr name) →
  let st' := _load_state started (reference_json (_save_state saved st)) in
  (∀ s, servers st' !! s
        = (λ i, Info (rank i) started) <$> servers st !! s)
  ∧ next_rank st' = next_rank st
  ∧ ∀ now, (now - started ≤ HEARTBEAT_TIMEOUT)%Qc
           → _cleanup_inactive_servers now st' = st'.
Proof.
  intros _ st'. split; [|split].
  - intros s. apply lookup_fmap.
  - done.
  - intros now Hnow.
    destruct (cleanup_unfold now st') as [[_ ->]|[Hne _]]; [by destruct st'|].
    destruct Hne.
    destruct (filter _ _) as [|[s i] l] eqn:Hfilter; [done|].
    assert ((s, i) ∈ filter (λ ni : value * info, expired now ni.2 = true)
              (map_to_list (servers st')))
      as [He Hin]%list_elem_of_filter by (rewrite Hfilter; left).
    apply elem_of_map_to_list in Hin. unfold st' in Hin. simpl in Hin.
    rewrite lookup_fmap in Hin.
    destruct (servers st !! s) as [j|]; [|done].
    injection Hin as <-. simpl in He. apply expired_spec in He.
    simpl in He. by apply Qcle_ngt in Hnow.
Qed.

Lemma restart_restores_roster_witness :
  let st := (handle_rank_request {[ "user" := VStr "server_a" ]}
               (Qc_of_Z 1) init).2 in
  let st' := _load_state (Qc_of_Z 500)
               (reference_json (_save_state (Qc_of_Z 2) st)) in
  _cleanup_inactive_servers (Qc_of_Z 530) st' = st'.
Proof.
  intros st st'.
  apply (restart_restores_roster st (Qc_of_Z 2) (Qc_of_Z 500)).
  - intros s i Hs.
    assert (dom (servers st) = {[ VStr "server_a" ]}) as Hst by evaluate.
    apply elem_of_dom_2 in Hs. rewrite Hst in Hs.
    apply elem_of_singleton in Hs as ->. by exists "server_a".
  - by vm_compute.
Defined.


End registry_cleanup.

(** ** Replication: what a merge keeps and what it adds *)

Section add_new_more.
Import ReplicationManager.
Context `{Countable K} (key : dict → option K).
Implicit Types (new existing : list dict).

Local Abbreviation keys l := (omap key l).
Local Abbreviation key_set l := (list_to_set (omap key l) : gset K).

Lemma add_new_keeps new existing :
  existing `prefix_of` add_new key new existing (key_set existing)
  ∧ add_new key new existing (key_set existing) ⊆ existing ++ new.
Proof.
  destruct (add_new_spec key new existing (key_set existing))
    as (added & -> & Hsub & _).
  split; [by apply prefix_app_r|]. set_solver.
Qed.

Lemma add_new_covers new existing k :
  k ∈ keys new → k ∈ keys (add_new key new existing (key_set existing)).
Proof.
  intros Hk. apply (elem_of_list_to_set (C:=gset K)).
  apply (key_set_after_merge key _ new existing k); [done|by right].
Qed.



End add_new_more.

Section merges_more.
Import ReplicationManager.

(** X13: a merge of logins keeps the stored list as it is and appends records
    of the payload after it: no stored record is dropped, changed or
    moved; every user of the payload is stored afterwards; the files of
    the channels and of the messages are not touched.  The merge of
    channels does the same with the channels. *)
Theorem merge_keeps_stored_records (new : list dict) (st : store) :
  (logins_json st `prefix_of` logins_json (_merge_logins new st)
   ∧ logins_json (_merge_logins new st) ⊆ logins_json st ++ new
   ∧ (∀ r u, r ∈ new → r !! "user" = Some u →
        ∃ r', r' ∈ logins_json (_merge_logins new st)
              ∧ r' !! "user" = Some u)
   ∧ channels_json (_merge_logins new st) = channels_json st
   ∧ messages_json (_merge_logins new st) = messages_json st)
  ∧ (channels_json st `prefix_of` channels_json (_merge_channels new st)
     ∧ channels_json (_merge_channels new st) ⊆ channels_json st ++ new
     ∧ (∀ r c, r ∈ new → r !! "channel" = Some c →
          ∃ r', r' ∈ channels_json (_merge_channels new st)
                ∧ r' !! "channel" = Some c)
     ∧ logins_json (_merge_channels new st) = logins_json st
     ∧ messages_json (_merge_channels new st) = messages_json st).
Proof.
  split.
  - unfold _merge_logins, field_set. simpl.
    destruct (add_new_keeps (λ r : dict, r !! "user") new (logins_json st))
      as [Hpre Hsub].
    split; [done|]. split; [done|]. split; [|done].
    intros r u Hr Hu. apply list_elem_of_omap.
    apply (add_new_covers (λ r : dict, r !! "user")).
    apply list_elem_of_omap. eauto.
  - unfold _merge_channels, field_set. simpl.
    destruct (add_new_keeps (λ r : dict, r !! "channel") new
                (channels_json st)) as [Hpre Hsub].
    split; [done|]. split; [done|]. split; [|done].
    intros r u Hr Hu. apply list_elem_of_omap.
    apply (add_new_covers (λ r : dict, r !! "channel")).
    apply list_elem_of_omap. eauto.
Qed.

Lemma merge_keeps_stored_records_witness :
  let alice : dict := {[ "user" := VStr "alice"; "timestamp" := VInt 10 ]} in
  let late : dict := {[ "user" := VStr "alice"; "timestamp" := VInt 99 ]} in
  let bob : dict := {[ "user" := VStr "bob"; "timestamp" := VInt 11 ]} in
  logins_json (_merge_logins [late; bob] (Store [alice] [] []))
  = [alice; bob]
  ∧ ∃ r', r' ∈ logins_json (_merge_logins [late; bob] (Store [alice] [] []))
          ∧ r' !! "user" = Some (VStr "alice").
Proof.
  intros alice late bob. split; [evaluate|].
  destruct (merge_keeps_stored_records [late; bob] (Store [alice] [] []))
    as [(_ & _ & Hcover & _) _].
  apply (Hcover late); [by left|reflexivity].
Defined.

(** X14: a merge of messages (timestamps and clocks being numbers) drops no
    stored message: those stored before are all stored afterwards, each
    as many times; what is stored afterwards comes from the store and the
    payload and is sorted by [(timestamp, clock)]; every message of the
    payload has its identifier stored afterwards; and the files of the
    logins and of the channels are not touched. *)
Theorem merge_messages_keeps_stored (new : list dict) (st : store) :
  Forall numeric_keys (messages_json st ++ new) →
  let after := messages_json (_merge_messages new st) in
  messages_json st ⊆+ after
  ∧ after ⊆ messages_json st ++ new
  ∧ Sorted key_le after
  ∧ (∀ m, m ∈ new → _get_message_id m ∈ _get_message_id <$> after)
  ∧ logins_json (_merge_messages new st) = logins_json st
  ∧ channels_json (_merge_messages new st) = channels_json st.
Proof.
  intros _ after. subst after. rewrite _merge_messages_again.
  set (key := λ msg : dict, Some (_get_message_id msg)).
  destruct (add_new_keeps key new (messages_json st)) as [[added Hpre] Hsub].
  split; [|split; [|split; [|split]]].
  - rewrite sort_perm, Hpre. by apply submseteq_inserts_r.
  - intros m. rewrite sort_perm. apply Hsub.
  - apply sort_Sorted.
  - intros m Hm. rewrite message_ids_omap.
    eapply elem_of_Permutation_proper;
      [apply omap_Permutation, sort_perm|].
    apply (add_new_covers key). apply list_elem_of_omap. eauto.
  - done.
Qed.

Lemma merge_messages_keeps_stored_witness :
  let m1 : dict :=
    {[ "type" := VStr "publish"; "user" := VStr "alice";
       "channel" := VStr "geral"; "message" := VStr "m1";
       "timestamp" := VInt 20; "clock" := VInt 2 ]} in
  let m2 : dict :=
    {[ "type" := VStr "message"; "src" := VStr "alice";
       "dst" := VStr "bob"; "message" := VStr "hi";
       "timestamp" := VInt 10; "clock" := VInt 5 ]} in
  [m1] ⊆+ messages_json (_merge_messages [m2] (Store [] [] [m1]))
  ∧ messages_json (_merge_messages [m2] (Store [] [] [m1])) = [m2; m1].
Proof.
  intros m1 m2. split; [|evaluate].
  apply (merge_messages_keeps_stored [m2] (Store [] [] [m1])).
  repeat constructor; eexists _, _; reflexivity.
Defined.

End merges_more.

(** ** Replication: the files of a server that started empty *)

Section replicate_all.
Import ReplicationManager ReplicationServer.




Lemma _handle_replicate_log data now self :
  replication_log (_handle_replicate data now self).2
  = replication_log self
    ++ (if known_type data
        then [LogEntry now (source_server data) (data_type data)
                (length (payload data))]
        else []).
Proof.
  unfold _handle_replicate, known_type.
  repeat case_bool_decide; cbn [snd replication_log orb];
    by rewrite ?app_nil_r.
Qed.

(** X16: the replication log has one entry for each handled request of a known
    type, in the order of the requests, with the instant, the source, the
    type and the length of the payload of the request, also when the
    payload brought nothing new; a request of another type is answered
    with an error and leaves the server as it was. *)
Theorem replication_log_entries (requests : list (replicate * Qc))
    (self : t) :
  replication_log (replicate_all requests self)
  = replication_log self
    ++ ((λ '(data, now), LogEntry now (source_server data) (data_type data)
                           (length (payload data)))
        <$> filter (λ '(data, _), known_type data = true) requests)
  ∧ ∀ data now,
      known_type data = false →
      _handle_replicate data now self
      = (Tipo_desconhecido (data_type data), self).
Proof.
  split.
  - revert self. induction requests as [|[data now] requests IH];
      intros self; cbn [replicate_all]; [by rewrite app_nil_r|].
    rewrite IH, (_handle_replicate_log data now self).
    destruct (known_type data) eqn:Hknown.
    + rewrite filter_cons_True by done. by rewrite fmap_cons, <-app_assoc.
    + rewrite filter_cons_False by (simpl; congruence).
      by rewrite app_nil_r.
  - intros data now. unfold _handle_replicate, known_type.
    repeat case_bool_decide; first [discriminate|reflexivity].
Qed.

Lemma replication_log_entries_witness :
  _handle_replicate (Replicate (VStr "server_2") (VStr "users") [])
    (Qc_of_Z 30) (empty "server_1")
  = (Tipo_desconhecido (VStr "users"), empty "server_1").
Proof.
  apply (replication_log_entries [] (empty "server_1")). reflexivity.
Defined.

End replicate_all.

(** ** Election: the coordinator fields and the Bully round *)

Section bully.
Import ElectionManager Bully.

Lemma asked_app out1 out2 : asked (out1 ++ out2) = asked out1 ++ asked out2.
Proof. apply omap_app. Qed.

Lemma announced_to_app out1 out2 :
  announced_to (out1 ++ out2) = announced_to out1 ++ announced_to out2.
Proof. apply omap_app. Qed.

Lemma asked_requests (f : value * Z → Messaging.envelope) l :
  asked ((λ s, Election_to s.1 (f s)) <$> l) = l.*1.
Proof. induction l as [|s l IH]; [done|]. cbn. by rewrite <-IH. Qed.

Lemma announced_to_requests (f : value * Z → Messaging.envelope) l :
  announced_to ((λ s, Election_to s.1 (f s)) <$> l) = [].
Proof. induction l as [|s l IH]; [done|]. cbn. by rewrite <-IH. Qed.

Lemma asked_announcements (f : value * Z → Messaging.envelope) l :
  asked ((λ s, Coordinator_to s.1 (f s)) <$> l) = [].
Proof. induction l as [|s l IH]; [done|]. cbn. by rewrite <-IH. Qed.

Lemma announced_to_announcements (f : value * Z → Messaging.envelope) l :
  announced_to ((λ s, Coordinator_to s.1 (f s)) <$> l) = l.*1.
Proof. induction l as [|s l IH]; [done|]. cbn. by rewrite <-IH. Qed.

Lemma published_app out1 out2 :
  published (out1 ++ out2) = published out1 ++ published out2.
Proof. apply omap_app. Qed.

Lemma published_requests (f : value * Z → Messaging.envelope) l :
  published ((λ s, Election_to s.1 (f s)) <$> l) = [].
Proof. induction l as [|s l IH]; [done|]. cbn. by rewrite <-IH. Qed.

Lemma published_announcements (f : value * Z → Messaging.envelope) l :
  published ((λ s, Coordinator_to s.1 (f s)) <$> l) = [].
Proof. induction l as [|s l IH]; [done|]. cbn. by rewrite <-IH. Qed.

Lemma _become_coordinator_published now st :
  ∃ announcement,
    published (_become_coordinator now st).1 = [("servers", announcement)]
    ∧ Messaging.service announcement = "election"
    ∧ Messaging.data announcement !! "event"
      = Some (VStr "new_coordinator")
    ∧ Messaging.data announcement !! "coordinator"
      = Some (VStr (server_name (self st)))
    ∧ Messaging.data announcement !! "rank" = Some (VInt (rank (self st))).
Proof.
  unfold _become_coordinator. cbn [fst].
  rewrite published_app. unfold _announce_to_all_servers.
  rewrite published_announcements.
  eexists. split; [reflexivity|]. by cbn.
Qed.

Lemma _become_coordinator_spec now st :
  let out := (_become_coordinator now st).1 in
  let st' := (_become_coordinator now st).2 in
  is_coordinator st' = true
  ∧ coordinator st' = Some (VStr (server_name (self st)))
  ∧ election_in_progress st' = false
  ∧ self st' = self st
  ∧ known_servers st' = known_servers st
  ∧ asked out = []
  ∧ announced_to out
    = (filter (λ s : value * Z, s.1 ≠ VStr (server_name (self st)))
         (known_servers st)).*1.
Proof.
  unfold _become_coordinator, _publish_coordinator_announcement,
    _announce_to_all_servers. cbn -[filter].
  repeat split.
  - apply asked_announcements.
  - apply announced_to_announcements.
Qed.

(** The form of [start_election] outside a running election: the
    requests to the higher-ranked servers, then, when none answered OK,
    what [_become_coordinator] sends. *)
Lemma start_election_unfold net now st :
  election_in_progress st = false →
  let st1 :=
    _log_election_event "election_started" (VStr (server_name (self st)))
      (VInt (rank (self st))) now
      (State (self st) (is_coordinator st) (coordinator st) true
         (known_servers st) (election_log st)) in
  let requests :=
    (λ s : value * Z, Election_to s.1 (election_request (self st) now))
    <$> higher_rank_servers st in
  start_election net now st
  = if existsb (λ s : value * Z, answered_ok (net s.1))
         (higher_rank_servers st)
    then (requests,
          State (self st) (is_coordinator st) (coordinator st) false
            (known_servers st) (election_log st1))
    else (requests ++ (_become_coordinator now st1).1,
          (_become_coordinator now st1).2).
Proof.
  intros Hp. destruct st as [me c co p k log]. cbn in Hp. subst p.
  intros st1 requests. subst st1 requests.
  unfold start_election, higher_rank_servers, _log_election_event.
  cbn [self known_servers election_in_progress is_coordinator coordinator
       election_log].
  destruct (filter _ k) as [|s l].
  { cbn [existsb fmap list_fmap app].
    by destruct (_become_coordinator now _). }
  destruct (existsb _ (s :: l)); [done|].
  cbn [negb]. by destruct (_become_coordinator now _).
Qed.

Lemma elem_of_higher_rank_servers st target :
  target ∈ (higher_rank_servers st).*1
  ↔ ∃ r, (target, r) ∈ known_servers st
         ∧ rank (self st) < r ∧ target ≠ VStr (server_name (self st)).
Proof.
  unfold higher_rank_servers. rewrite list_elem_of_fmap. split.
  - intros ([target' r] & -> & Hin). apply list_elem_of_filter in Hin.
    exists r. naive_solver.
  - intros (r & Hin & Hr & Hn). exists (target, r). split; [done|].
    apply list_elem_of_filter. naive_solver.
Qed.

Lemma existsb_answered net (l : list (value * Z)) :
  existsb (λ s : value * Z, answered_ok (net s.1)) l = false
  ↔ ∀ target, target ∈ l.*1 → answered_ok (net target) = false.
Proof.
  induction l as [|s l IH]; cbn.
  - split; [|done]. intros _ target Hin. by apply elem_of_nil in Hin.
  - rewrite orb_false_iff, IH. split.
    + intros [Hs Hl] target [->|Hin]%elem_of_cons; auto.
    + intros H. split; [apply H; left|intros target Hin; apply H; by right].
Qed.

(** X17: outside a running election, [start_election] asks exactly the known
    servers with a larger rank and another name.  When none of them
    answers OK (also when there is none to ask), the server becomes
    coordinator, publishes one announcement of it on the topic
    [servers], with its name and its rank, and announces it to every
    known server of another name, whatever its rank.  When one answers
    OK, the coordinator fields stay as they were and nothing is sent but
    the election requests: nothing is published, and nothing announced
    to a server.  Either way no election is in progress afterwards. *)
Theorem start_election_outcome (net : value → option Messaging.envelope)
    (now : Qc) (st : state) :
  election_in_progress st = false →
  let out := (start_election net now st).1 in
  let st' := (start_election net now st).2 in
  let name := VStr (server_name (self st)) in
  (∀ target,
     target ∈ asked out
     ↔ ∃ r, (target, r) ∈ known_servers st
            ∧ rank (self st) < r ∧ target ≠ name)
  ∧ ((∀ target, target ∈ asked out → answered_ok (net target) = false) →
     is_coordinator st' = true ∧ coordinator st' = Some name
     ∧ (∀ target,
          target ∈ announced_to out
          ↔ target ∈ (known_servers st).*1 ∧ target ≠ name)
     ∧ ∃ announcement,
         published out = [("servers", announcement)]
         ∧ Messaging.service announcement = "election"
         ∧ Messaging.data announcement !! "event"
           = Some (VStr "new_coordinator")
         ∧ Messaging.data announcement !! "coordinator" = Some name
         ∧ Messaging.data announcement !! "rank"
           = Some (VInt (rank (self st))))
  ∧ ((∃ target, target ∈ asked out ∧ answered_ok (net target) = true) →
     is_coordinator st' = is_coordinator st
     ∧ coordinator st' = coordinator st
     ∧ announced_to out = []
     ∧ published out = []
     ∧ ∀ m, m ∈ out →
            ∃ target, m = Election_to target (election_request (self st) now))
  ∧ election_in_progress st' = false
  ∧ known_servers st' = known_servers st.
Proof.
  intros Hp out st' name. subst out st'.
  rewrite (start_election_unfold net now st Hp).
  set (st1 := _log_election_event _ _ _ _ _).
  destruct (_become_coordinator_spec now st1)
    as (Hc & Hco & Hpr & Hself & Hk & Hasked & Hann).
  destruct (_become_coordinator_published now st1)
    as (announcement & Hpub & Hservice & Hevent & Hcoord & Hrank).
  change (self st1) with (self st) in *.
  change (known_servers st1) with (known_servers st) in *.
  destruct (existsb _ (higher_rank_servers st)) eqn:Hex; cbn [fst snd].
  - rewrite asked_requests, announced_to_requests, published_requests.
    split; [intros; apply elem_of_higher_rank_servers|].
    split.
    + intros Hnone. apply existsb_answered in Hnone. congruence.
    + split; [|done]. intros _. repeat (split; [done|]).
      intros m ([target r] & -> & _)%list_elem_of_fmap. by exists target.
  - rewrite asked_app, announced_to_app, published_app, asked_requests,
      announced_to_requests, published_requests, Hasked, Hann, Hpub,
      app_nil_r, !app_nil_l.
    split; [intros; apply elem_of_higher_rank_servers|].
    split; [|split; [|done]].
    + intros _. split; [done|]. split; [done|]. split.
      * intros target. rewrite !list_elem_of_fmap. split.
        -- intros ([t r] & -> & Hin). apply list_elem_of_filter in Hin.
           split; [|naive_solver]. exists (t, r). naive_solver.
        -- intros [([t r] & -> & Hin) Hn]. exists (t, r).
           split; [done|]. by apply list_elem_of_filter.
      * by exists announcement.
    + intros (target & Hin & Hok).
      rewrite (proj1 (existsb_answered net _) Hex target Hin) in Hok.
      discriminate Hok.
Qed.

Lemma start_election_outcome_witness :
  let me := Manager "server_2" 2 in
  let st :=
    update_server_list
      [(VStr "server_1", 1); (VStr "server_2", 2); (VStr "server_3", 3)]
      (init me) in
  let silent : value → option Messaging.envelope := λ _, None in
  let ok : value → option Messaging.envelope :=
    λ _, Some (Messaging.Envelope "election" {[ "status" := VStr "OK" ]}) in
  asked (start_election silent (Qc_of_Z 50) st).1 = [VStr "server_3"]
  ∧ is_coordinator (start_election silent (Qc_of_Z 50) st).2 = true
  ∧ announced_to (start_election silent (Qc_of_Z 50) st).1
    = [VStr "server_1"; VStr "server_3"]
  ∧ length (published (start_election silent (Qc_of_Z 50) st).1) = 1%nat
  ∧ is_coordinator (start_election ok (Qc_of_Z 50) st).2 = false
  ∧ published (start_election ok (Qc_of_Z 50) st).1 = [].
Proof.
  intros me st silent ok.
  destruct (start_election_outcome silent (Qc_of_Z 50) st eq_refl)
    as (_ & Hbecomes & _).
  destruct (start_election_outcome ok (Qc_of_Z 50) st eq_refl)
    as (_ & _ & Hdefers & _).
  destruct Hbecomes as (Hc & _ & _ & announcement & Hpub & _).
  { intros target _. reflexivity. }
  destruct Hdefers as (Hc' & _ & _ & Hpub' & _).
  { exists (VStr "server_3"). split; [evaluate|reflexivity]. }
  split; [evaluate|]. split; [exact Hc|]. split; [evaluate|].
  split; [by rewrite Hpub|]. split; [by rewrite Hc'|exact Hpub'].
Defined.

Lemma step_consistent ev now st :
  (is_coordinator st = true
   ↔ coordinator st = Some (VStr (server_name (self st)))) →
  election_in_progress st = false →
  let st' := (step ev now st).2 in
  self st' = self st
  ∧ (is_coordinator st' = true
     ↔ coordinator st' = Some (VStr (server_name (self st))))
  ∧ election_in_progress st' = false.
Proof.
  intros Hc Hp st'. subst st'.
  destruct ev as [data|message|server_list|net]; cbn [step snd].
  - cbn. split; [done|]. split; [|done].
    rewrite bool_decide_eq_true. split; [by intros ->|by intros [= ->]].
  - unfold _process_servers_topic.
    destruct (_ && _); [|done]. cbn. split; [done|]. split; [|done].
    rewrite bool_decide_eq_true. split; [by intros ->|by intros [= ->]].
  - done.
  - rewrite (start_election_unfold net now st Hp).
    set (st1 := _log_election_event _ _ _ _ _).
    destruct (_become_coordinator_spec now st1)
      as (Hc' & Hco & Hpr & Hself & _).
    change (self st1) with (self st) in *.
    destruct (existsb _ _); cbn [snd]; [done|].
    rewrite Hc', Hco. done.
Qed.

Lemma run_consistent events : ∀ st,
  (is_coordinator st = true
   ↔ coordinator st = Some (VStr (server_name (self st)))) →
  election_in_progress st = false →
  let st' := (run events st).2 in
  self st' = self st
  ∧ (is_coordinator st' = true
     ↔ coordinator st' = Some (VStr (server_name (self st))))
  ∧ election_in_progress st' = false.
Proof.
  induction events as [|[ev now] events IH]; intros st Hc Hp st';
    subst st'; [done|].
  cbn [run]. destruct (step_consistent ev now st Hc Hp) as (Hs & Hc1 & Hp1).
  destruct (step ev now st) as [out st1]. cbn [snd] in *.
  rewrite <-Hs in Hc1. destruct (IH st1 Hc1 Hp1) as (Hs2 & Hc2 & Hp2).
  destruct (run events st1) as [outs st2]. cbn [snd] in *.
  rewrite Hs in Hs2, Hc2. done.
Qed.

(** X18: whatever announcements, lists of servers and elections a manager has
    gone through since the server created it, its flag [is_coordinator]
    is set exactly when its [coordinator] is its own name, no election is
    left in progress, and a server that is its own coordinator never
    finds the coordinator failed, however old the last heartbeat. *)
Theorem coordinator_flag_consistent (me : ElectionManager.t)
    (events : list (event * Qc)) :
  let st := (run events (initialize me)).2 in
  self st = me
  ∧ (is_coordinator st = true
     ↔ coordinator st = Some (VStr (server_name me)))
  ∧ election_in_progress st = false
  ∧ (coordinator st = Some (VStr (server_name me)) →
     ∀ last_heartbeat_time timeout now,
       check_coordinator_health last_heartbeat_time timeout now st = true).
Proof.
  intros st.
  assert (self (initialize me) = me) as Hme.
  { unfold initialize. by case_bool_decide. }
  destruct (run_consistent events (initialize me)) as (Hs & Hc & Hp).
  - rewrite Hme. unfold initialize, init. by case_bool_decide.
  - unfold initialize, init. by case_bool_decide.
  - rewrite Hme in Hs, Hc. fold st in Hs, Hc, Hp.
    split; [done|]. split; [done|]. split; [done|].
    intros Hco last_heartbeat_time timeout now.
    unfold check_coordinator_health.
    by rewrite (proj2 Hc Hco), orb_true_r.
Qed.

(** X19: when the exchanges of an election are answered by the handlers of the
    servers that can be reached: the server becomes coordinator when
    every known server of larger rank and other name is out of reach;
    a reachable one answers OK, so that the coordinator fields stay as
    they were, and it starts an election of its own exactly when its own
    rank is larger than the rank of the request. *)
Theorem election_defers_to_reachable_higher
    (peers : gmap value ElectionManager.t) (now : Qc) (st : state) :
  election_in_progress st = false →
  let net := answers peers (election_request (self st) now) now in
  let st' := (start_election net now st).2 in
  let name := VStr (server_name (self st)) in
  ((∀ target r, (target, r) ∈ known_servers st → rank (self st) < r →
      target ≠ name → peers !! target = None) →
   is_coordinator st' = true ∧ coordinator st' = Some name)
  ∧ ∀ target r peer,
      (target, r) ∈ known_servers st → rank (self st) < r →
      target ≠ name → peers !! target = Some peer →
      is_coordinator st' = is_coordinator st
      ∧ coordinator st' = coordinator st
      ∧ ∃ response effects,
          _handle_election_request peer
            (Messaging.data (election_request (self st) now)) now
          = Some (response, effects)
          ∧ net target = Some response
          ∧ (effects = [Thread_start_election]
             ↔ rank (self st) < rank peer).
Proof.
  intros Hp net st' name. subst st'.
  rewrite (start_election_unfold net now st Hp).
  set (st1 := _log_election_event _ _ _ _ _).
  destruct (_become_coordinator_spec now st1) as (Hc & Hco & _).
  change (self st1) with (self st) in *.
  assert (∀ target peer, peers !! target = Some peer →
            ∃ response effects,
              _handle_election_request peer
                (Messaging.data (election_request (self st) now)) now
              = Some (response, effects)
              ∧ net target = Some response
              ∧ answered_ok (net target) = true
              ∧ (effects = [Thread_start_election]
                 ↔ rank (self st) < rank peer)) as Hpeer.
  { intros target peer Hpeer. unfold net, answers. rewrite Hpeer.
    unfold _handle_election_request, election_request, dict_get.
    cbn [Messaging.data]. rewrite lookup_insert_eq. cbn.
    eexists _, _. split; [reflexivity|]. split; [reflexivity|].
    split; [done|]. unfold VInt.
    case_bool_decide as Hlt.
    - apply Z2Qc_inj_lt in Hlt. done.
    - split; [done|]. intros Hlt'. destruct Hlt.
      apply (proj1 (Z2Qc_inj_lt _ _)). exact Hlt'. }
  split.
  - intros Hnone.
    assert (existsb (λ s : value * Z, answered_ok (net s.1))
              (higher_rank_servers st) = false) as ->; [|done].
    apply existsb_answered. intros target Hin.
    apply elem_of_higher_rank_servers in Hin as (r & Hin & Hr & Hn).
    unfold net, answers. by rewrite (Hnone target r Hin Hr Hn).
  - intros target r peer Hin Hr Hn Hreach.
    destruct (Hpeer target peer Hreach)
      as (response & effects & Hh & Hnet & Hok & Heff).
    assert (existsb (λ s : value * Z, answered_ok (net s.1))
              (higher_rank_servers st) = true) as ->.
    { apply not_false_iff_true. intros Hex.
      rewrite (proj1 (existsb_answered net _) Hex target) in Hok; [done|].
      apply elem_of_higher_rank_servers. eauto. }
    cbn [snd]. split; [done|]. split; [done|]. eauto.
Qed.

Lemma election_defers_to_reachable_higher_witness :
  let me := Manager "server_2" 2 in
  let st :=
    update_server_list
      [(VStr "server_1", 1); (VStr "server_2", 2); (VStr "server_3", 3)]
      (init me) in
  let peers : gmap value ElectionManager.t :=
    {[ VStr "server_1" := Manager "server_1" 1 ]} in
  let net := answers peers (election_request me (Qc_of_Z 50)) (Qc_of_Z 50) in
  is_coordinator (start_election net (Qc_of_Z 50) st).2 = true
  ∧ coordinator (start_election net (Qc_of_Z 50) st).2
    = Some (VStr "server_2").
Proof.
  intros me st peers net.
  apply (election_defers_to_reachable_higher peers (Qc_of_Z 50) st eq_refl).
  intros target r Hin Hr Hn.
  repeat (apply elem_of_cons in Hin as [[= -> ->]|Hin];
          [first [done|by vm_compute; lia]|]).
  by apply elem_of_nil in Hin.
Defined.

End bully.

(** ** Berkeley: the applied offsets and a round of the coordinator *)

Section berkeley_round.
Import BerkeleySynchronizer BerkeleyRound.

Lemma total_snoc os o : total (os ++ [o]) = (total os + o)%Qc.
Proof.
  unfold total. induction os as [|o' os IH]; cbn; [ring|].
  rewrite IH. ring.
Qed.

Lemma apply_offsets_snoc fp os o self :
  apply_offsets fp (os ++ [o]) self
  = apply_offset fp o.1 o.2 (apply_offsets fp os self).
Proof. unfold apply_offsets. by rewrite foldl_snoc. Qed.

(** The offset of the clock and the records of the history after a run
    of [apply_offset], in the arithmetic of the run. *)
Lemma apply_offsets_spec fp (os : list (Qc * Qc)) (self : t) :
  time_offset (apply_offsets fp os self)
  = foldl (add fp) (time_offset self) os.*1
  ∧ ∃ records,
      sync_history (apply_offsets fp os self) = sync_history self ++ records
      ∧ offset_applied <$> records = os.*1
      ∧ sync_timestamp <$> records = os.*2
      ∧ ∀ (i : nat) r,
          records !! i = Some r →
          total_offset r
          = foldl (add fp) (time_offset self) (take (S i) os.*1).
Proof.
  induction os as [|[o now] os IH] using rev_ind.
  - cbn. split; [done|]. exists [].
    rewrite app_nil_r. repeat split. intros i r Hi.
    by rewrite lookup_nil in Hi.
  - destruct IH as (Hoff & records & Hh & Ho & Ht & Htot).
    rewrite apply_offsets_snoc. cbn [fst snd apply_offset time_offset
      sync_history]. rewrite !fmap_app. cbn [fmap list_fmap fst snd].
    rewrite foldl_snoc, Hoff. split; [done|].
    exists (records
            ++ [SyncRecord now o
                  (add fp (foldl (add fp) (time_offset self) os.*1) o)]).
    rewrite Hh, !fmap_app, Ho, Ht, <-app_assoc. cbn.
    repeat split. intros i r Hi.
    assert (length records = length os) as Hlen.
    { by rewrite <-(length_fmap offset_applied), Ho, length_fmap. }
    apply lookup_app_Some in Hi as [Hi|[Hge Hi]].
    + rewrite take_app_le.
      * by apply Htot.
      * rewrite length_fmap, <-Hlen.
        apply lookup_lt_Some in Hi. lia.
    + apply list_lookup_singleton_Some in Hi as [Hi <-].
      rewrite take_ge.
      * cbn. by rewrite foldl_snoc.
      * rewrite length_app, length_fmap. cbn. lia.
Qed.

Lemma foldl_add_exact (x : Qc) (os : list Qc) :
  foldl (add exact) x os = (x + total os)%Qc.
Proof.
  revert x. induction os as [|o os IH]; intros x; cbn.
  - unfold total. cbn. ring.
  - rewrite IH. unfold total. cbn. ring.
Qed.

(** X20: after offsets have been applied one after the other, the offset of
    the clock is the previous one to which each has been added in turn,
    as Python adds floats, and the history has one more record for each,
    in order, with the instant, the offset, and as total the offset of
    the clock after it.  In exact arithmetic that offset is the previous
    one plus the sum of the offsets applied, and the clock reads that
    sum later than it would have. *)
Theorem applied_offsets_accumulate (fp : arithmetic) (os : list (Qc * Qc))
    (self : t) :
  let self' := apply_offsets fp os self in
  let added := foldl (add fp) (time_offset self) in
  time_offset self' = added os.*1
  ∧ (∀ now, get_local_time fp now self' = add fp now (added os.*1))
  ∧ (∃ records,
       sync_history self' = sync_history self ++ records
       ∧ offset_applied <$> records = os.*1
       ∧ sync_timestamp <$> records = os.*2
       ∧ ∀ (i : nat) r,
           records !! i = Some r →
           total_offset r = added (take (S i) os.*1))
  ∧ time_offset (apply_offsets exact os self)
    = (time_offset self + total os.*1)%Qc
  ∧ ∀ now,
      get_local_time exact now (apply_offsets exact os self)
      = (get_local_time exact now self + total os.*1)%Qc.
Proof.
  intros self' added. subst self' added.
  destruct (apply_offsets_spec fp os self) as [Hoff Hrec].
  destruct (apply_offsets_spec exact os self) as [Hexact _].
  rewrite foldl_add_exact in Hexact.
  split; [done|]. split.
  { intros now. unfold get_local_time. by rewrite Hoff. }
  split; [done|]. split; [done|].
  intros now. unfold get_local_time. rewrite Hexact. cbn. ring.
Qed.

(** What the timestamps hold for a name: the adjusted time of the
    coordinator under its own name, and under another name of the list
    what was kept of its answer. *)
Lemma collect_timestamps_lookup fp server_list net now self name :
  collect_timestamps fp server_list net now self !! name
  = if bool_decide (name = server_name self)
    then Some (VNum (get_local_time fp now self))
    else if bool_decide (name ∈ server_list) then kept net name
    else None.
Proof.
  unfold collect_timestamps.
  set (f := λ (timestamps : gmap string value) (name : string), _).
  assert (∀ l acc,
            foldl f acc l !! name
            = match
                (if bool_decide (name ≠ server_name self ∧ name ∈ l)
                 then kept net name else None)
              with
              | Some time => Some time
              | None => acc !! name
              end) as Hfold.
  { induction l as [|a l IH]; intros acc.
    - cbn. rewrite bool_decide_eq_false_2; [done|].
      intros [_ Hin]. by apply elem_of_nil in Hin.
    - cbn [foldl]. rewrite IH.
      assert (f acc a !! name
              = if bool_decide (name ≠ server_name self ∧ name = a)
                then match kept net a with
                     | Some time => Some time
                     | None => acc !! name
                     end
                else acc !! name) as ->.
      { unfold f, kept.
        destruct (decide (a = server_name self)) as [Ha|Ha].
        - rewrite (bool_decide_eq_true_2 (a = _)) by done.
          rewrite bool_decide_eq_false_2; [done|]. by intros [Hn ->].
        - rewrite (bool_decide_eq_false_2 (a = _)) by done.
          destruct (decide (name = a)) as [->|Hna].
          + rewrite bool_decide_eq_true_2 by done.
            destruct (net a) as [time|]; [|done].
            destruct (truthy time); [|done].
            by rewrite lookup_insert_eq.
          + rewrite bool_decide_eq_false_2 by naive_solver.
            destruct (net a) as [time|]; [|done].
            destruct (truthy time); [|done].
            by rewrite lookup_insert_ne. }
      destruct (decide (name = server_name self)) as [Hme|Hme].
      { by rewrite !bool_decide_eq_false_2 by naive_solver. }
      destruct (decide (name = a)) as [->|Hna].
      + rewrite (bool_decide_eq_true_2 (_ ∧ a = a)) by done.
        rewrite (bool_decide_eq_true_2 (_ ∧ a ∈ a :: l)) by set_solver.
        case_bool_decide; by destruct (kept net a).
      + rewrite (bool_decide_eq_false_2 (_ ∧ name = a)) by naive_solver.
        destruct (decide (name ∈ l)) as [Hl|Hl].
        * rewrite (bool_decide_eq_true_2 (_ ∧ name ∈ l)) by done.
          by rewrite (bool_decide_eq_true_2 (_ ∧ name ∈ a :: l))
            by set_solver.
        * rewrite (bool_decide_eq_false_2 (_ ∧ name ∈ l)) by naive_solver.
          by rewrite (bool_decide_eq_false_2 (_ ∧ name ∈ a :: l))
            by set_solver. }
  rewrite Hfold. destruct (decide (name = server_name self)) as [Hme|Hme].
  - rewrite bool_decide_eq_false_2 by naive_solver.
    rewrite (bool_decide_eq_true_2 (name = _)) by done.
    subst name. by rewrite lookup_singleton_eq.
  - rewrite (bool_decide_eq_false_2 (name = _)) by done.
    rewrite lookup_singleton_ne by done.
    destruct (decide (name ∈ server_list)) as [Hin|Hin].
    + rewrite !bool_decide_eq_true_2 by done. by destruct (kept net name).
    + by rewrite !bool_decide_eq_false_2 by naive_solver.
Qed.

Lemma numbers_Some timestamps ts :
  numbers timestamps = Some ts → timestamps = VNum <$> ts.
Proof.
  unfold numbers. destruct (decide _) as [Hall|]; [|done].
  intros [= <-]. apply map_eq. intros name.
  rewrite lookup_fmap, lookup_omap.
  destruct (timestamps !! name) as [time|] eqn:Hname; [|done].
  destruct (Hall name time Hname) as [q Hq]. destruct time; [done|].
  discriminate Hq.
Qed.

Lemma numbers_None timestamps name s :
  timestamps !! name = Some (VStr s) → numbers timestamps = None.
Proof.
  intros Hname. unfold numbers. destruct (decide _) as [Hall|]; [|done].
  destruct (Hall name _ Hname) as [q Hq]. discriminate Hq.
Qed.

(** The offsets sent while the list has only other names. *)
Lemma distribute_offsets_others fp (offsets : gmap string Qc) now self :
  ∀ l out,
  server_name self ∉ l →
  foldl (λ (acc : list (string * Qc) * t) server_name',
           if bool_decide (server_name' = server_name acc.2) then
             (acc.1,
              apply_offset fp (default 0%Qc (offsets !! server_name')) now
                acc.2)
           else
             match offsets !! server_name' with
             | None => acc
             | Some offset => (acc.1 ++ [(server_name', offset)], acc.2)
             end)
    (out, self) l
  = (out ++ omap (λ name, (name,.) <$> offsets !! name) l, self).
Proof.
  induction l as [|a l IH]; intros out Hnotin.
  - cbn. by rewrite app_nil_r.
  - apply not_elem_of_cons in Hnotin as [Ha Hl]. cbn [foldl fst snd].
    rewrite bool_decide_eq_false_2 by done. cbn.
    destruct (offsets !! a) as [offset|]; cbn.
    + rewrite IH by done. by rewrite <-app_assoc.
    + by rewrite IH.
Qed.

Lemma distribute_offsets_round fp (offsets : gmap string Qc) known now
    self :
  server_name self ∉ known →
  distribute_offsets fp offsets (known ++ [server_name self]) now self
  = (omap (λ name, (name,.) <$> offsets !! name) known,
     apply_offset fp (default 0%Qc (offsets !! server_name self)) now self).
Proof.
  intros Hnotin. unfold distribute_offsets. rewrite foldl_snoc.
  rewrite (distribute_offsets_others fp offsets now self known [] Hnotin).
  cbn [fst snd app]. by rewrite bool_decide_eq_true_2.
Qed.

(** X21: a round that the server runs as coordinator on the list of the
    other known servers followed by itself, when the times collected are
    numbers and at least two: the round succeeds; the times are the
    adjusted time of the coordinator and, for each other server of the
    list, the time that was kept of its answer; each server of the list
    with a time is sent the difference between the average of the times
    and its time, as Python computes them on floats, nothing being sent
    to the others; and the coordinator adds its own difference to its
    offset.  In exact arithmetic the average is the arithmetic mean of
    the times, each server with a time is sent the mean minus its time,
    and the adjusted time of the coordinator is from then on the mean
    plus the time elapsed since the times were collected. *)
Theorem round_moves_coordinator_to_mean (fp : arithmetic)
    (servers : list string) (net : string → option value) (now : Qc)
    (self : t) (ts : gmap string Qc) :
  let known := update_server_list servers (server_name self) in
  let avg_time := average fp ts in
  let mean := arithmetic_mean (map_to_list ts).*2 in
  is_coordinator self = true →
  numbers (collect_timestamps fp (known ++ [server_name self]) net now self)
  = Some ts →
  (2 ≤ size ts)%nat →
  ∃ out self',
    _run_berkeley_sync fp known net now self = (true, out, self')
    ∧ ts !! server_name self = Some (get_local_time fp now self)
    ∧ (∀ name, name ≠ server_name self →
         VNum <$> ts !! name
         = if bool_decide (name ∈ servers) then kept net name else None)
    ∧ out = omap (λ name, (name,.) <$> (sub fp avg_time <$> ts !! name))
              known
    ∧ time_offset self'
      = add fp (time_offset self)
          (sub fp avg_time (get_local_time fp now self))
    ∧ (fp = exact →
       avg_time = mean
       ∧ out = omap (λ name, (name,.) <$> ((λ t, mean - t)%Qc <$> ts !! name))
                 known
       ∧ ∀ later,
           get_local_time fp later self' = (mean + (later - now))%Qc).
Proof.
  intros known avg_time mean Hcoord Hnum Hsize.
  assert (server_name self ∉ known) as Hnotin.
  { unfold known, update_server_list. rewrite list_elem_of_filter.
    naive_solver. }
  pose proof (numbers_Some _ _ Hnum) as Hts.
  assert (ts !! server_name self = Some (get_local_time fp now self)) as Hme.
  { pose proof (collect_timestamps_lookup fp (known ++ [server_name self])
                  net now self (server_name self)) as Hl.
    rewrite Hts, lookup_fmap, bool_decide_eq_true_2 in Hl by done.
    destruct (ts !! server_name self); by simplify_eq/=. }
  assert (ts ≠ ∅) as Hne.
  { intros ->. by rewrite lookup_empty in Hme. }
  assert (calculate_offsets fp ts = sub fp avg_time <$> ts) as Hoffsets.
  { unfold calculate_offsets. by rewrite bool_decide_eq_false_2. }
  unfold _run_berkeley_sync, run_synchronization.
  rewrite Hcoord. cbn [negb]. rewrite Hnum.
  rewrite bool_decide_eq_false_2
    by (rewrite Hts, map_size_fmap; lia).
  rewrite distribute_offsets_round by done.
  rewrite Hoffsets, lookup_fmap, Hme. cbn [fmap option_fmap option_map default].
  assert (omap (λ name, (name,.) <$> (sub fp avg_time <$> ts) !! name) known
          = omap (λ name, (name,.) <$> (sub fp avg_time <$> ts !! name))
              known) as ->.
  { apply list_omap_ext, Forall_Forall2_diag, Forall_forall.
    intros name _. by rewrite lookup_fmap. }
  eexists _, _. split; [reflexivity|]. split; [done|]. split; [|split].
  - intros name Hname.
    pose proof (collect_timestamps_lookup fp (known ++ [server_name self])
                  net now self name) as Hl.
    rewrite Hts, lookup_fmap, bool_decide_eq_false_2 in Hl by done.
    rewrite Hl. unfold known, update_server_list.
    rewrite (bool_decide_ext _ (name ∈ servers)); [done|].
    rewrite elem_of_app, list_elem_of_filter, list_elem_of_singleton.
    naive_solver.
  - done.
  - split; [done|]. intros Hexact.
    assert (avg_time = mean) as Hmean.
    { unfold avg_time, mean, arithmetic_mean. rewrite Hexact. cbn.
      by rewrite <-sum_samples, <-len_samples. }
    split; [done|]. rewrite Hmean. subst fp. split; [done|].
    intros later. unfold get_local_time. cbn. ring.
Qed.

Lemma round_moves_coordinator_to_mean_witness :
  let net : string → option value :=
    λ name, if bool_decide (name = "server_2") then Some (VInt 106)
            else None in
  let self := Synchronizer "server_1" true (Qc_of_Z 2) [] in
  ∃ out self',
    _run_berkeley_sync exact ["server_2"; "server_3"] net (Qc_of_Z 100) self
    = (true, out, self')
    ∧ get_local_time exact (Qc_of_Z 103) self' = Qc_of_Z 107
    ∧ out = [("server_2", (- Qc_of_Z 2)%Qc)].
Proof.
  intros net self.
  destruct (round_moves_coordinator_to_mean exact
              ["server_1"; "server_2"; "server_3"] net (Qc_of_Z 100) self
              {[ "server_1" := Qc_of_Z 102; "server_2" := Qc_of_Z 106 ]})
    as (out & self' & Hrun & _ & _ & _ & _ & Hexact);
    [reflexivity|evaluate|vm_compute; lia|].
  destruct (Hexact eq_refl) as (_ & Hout & Hmean).
  exists out, self'. split; [exact Hrun|]. split.
  - rewrite Hmean. evaluate.
  - rewrite Hout. evaluate.
Defined.

(** X22: a round changes nothing, sends nothing and returns [False] when the
    server is not coordinator, when no other server of the list gave a
    time that is not false, and when one gave a string. *)
Theorem round_aborts (fp : arithmetic) (server_list : list string)
    (net : string → option value) (now : Qc) (self : t) :
  is_coordinator self = false
  ∨ (∀ name, name ∈ server_list → name ≠ server_name self →
       kept net name = None)
  ∨ (∃ name s, name ∈ server_list ∧ name ≠ server_name self
               ∧ kept net name = Some (VStr s)) →
  run_synchronization fp server_list net now self = (false, [], self).
Proof.
  intros [Hcoord|[Hnone|(name & s & Hin & Hname & Hkept)]];
    unfold run_synchronization.
  - by rewrite Hcoord.
  - destruct (is_coordinator self); [|done]. cbn [negb].
    rewrite bool_decide_eq_true_2; [done|].
    assert (collect_timestamps fp server_list net now self
            = {[ server_name self := VNum (get_local_time fp now self) ]})
      as ->; [|rewrite map_size_singleton; lia].
    apply map_eq. intros name. rewrite collect_timestamps_lookup.
    case_bool_decide as Hme.
    + subst name. by rewrite lookup_singleton_eq.
    + rewrite lookup_singleton_ne by done.
      case_bool_decide; [|done]. by apply Hnone.
  - destruct (is_coordinator self); [|done]. cbn [negb].
    case_bool_decide; [done|].
    rewrite (numbers_None _ name s); [done|].
    rewrite collect_timestamps_lookup.
    by rewrite bool_decide_eq_false_2, bool_decide_eq_true_2.
Qed.

Lemma round_aborts_witness :
  let net : string → option value :=
    λ name, if bool_decide (name = "server_2") then Some (VInt 0)
            else None in
  let self := Synchronizer "server_1" true (Qc_of_Z 2) [] in
  run_synchronization exact ["server_2"; "server_3"; "server_1"] net
    (Qc_of_Z 100) self
  = (false, [], self).
Proof.
  intros net self. apply round_aborts. right; left.
  intros name Hin _.
  repeat (apply elem_of_cons in Hin as [->|Hin]; [reflexivity|]).
  by apply elem_of_nil in Hin.
Defined.

End berkeley_round.

(** ** Message server: histories, publications and restarts *)

Section message_board.
Import MessageBoard.


Lemma create_message_fresh service (data : dict) now c :
  create_message service data now c
  = (Messaging.Envelope service
       (<["clock" := VNum (LogicalClock.counter c + 1)%Qc]>
          (<["timestamp" := VNum now]> data)),
     LogicalClock.Make (LogicalClock.counter c + 1)%Qc).
Proof.
  unfold create_message.
  by rewrite (create_message_eq service 1%positive data)
    by apply lookup_singleton_eq.
Qed.



















Lemma saved_set_clock c st : saved st → saved (set_clock c st).
Proof. done. Qed.











End message_board.

(** ** Server: registration with the registry, and its coordinator *)

Section coordination.
Import Coordination.

Lemma update_exceeds (c : LogicalClock.t) (received : Qc) :
  (received < LogicalClock.counter (LogicalClock.update c received).2)%Qc
  ∧ (LogicalClock.counter c
     < LogicalClock.counter (LogicalClock.update c received).2)%Qc.
Proof.
  destruct (py_max_ge (LogicalClock.counter c) received) as [Hc Hr].
  cbn. split; (eapply Qcle_lt_trans; [done|apply Qclt_succ]).
Qed.

(** X28: a server with a non-empty name registers, with a registry whose
    clock is an integer from [-2^53] on with room for three ticks up to
    [2^53]: the registry answers the rank it holds for the name, or its
    next rank when it does not know the name, and saves its state; the
    server takes that rank, and is its own coordinator and the Berkeley
    coordinator exactly when the rank is 1.  The clock of the registry
    after the exchange is above the clock of the server before it, and
    the clock of the server after it is above that of the registry.
    When the exchange raises, the server stays without rank, its clock
    one tick later. *)
Theorem registration_gets_registry_rank (now now_ref : Qc)
    (registry : ReferenceServer.t) (name : string) :
  name ≠ "" →
  LamportClock.headroom 3
    (LogicalClock.counter (ReferenceServer.clock registry)) →
  let st := init name in
  (∃ k st' registry',
     register_with_reference true now now_ref registry st
     = (true, st', registry')
     ∧ rank st' = Some k
     ∧ (∃ i, ReferenceServer.servers registry' !! VStr name = Some i
             ∧ ReferenceServer.rank i = k
             ∧ ReferenceServer.last_heartbeat i = now_ref)
     ∧ match ReferenceServer.servers registry !! VStr name with
       | Some i =>
           k = ReferenceServer.rank i
           ∧ ReferenceServer.next_rank registry'
             = ReferenceServer.next_rank registry
       | None =>
           k = ReferenceServer.next_rank registry
           ∧ ReferenceServer.next_rank registry'
             = ReferenceServer.next_rank registry + 1
       end
     ∧ ReferenceServer.reference_json registry'
       = Some (ReferenceServer.Snapshot (ReferenceServer.servers registry')
                 (ReferenceServer.next_rank registry') now_ref)
     ∧ (LogicalClock.counter (clock st)
        < LogicalClock.counter (ReferenceServer.clock registry'))%Qc
     ∧ (LogicalClock.counter (ReferenceServer.clock registry')
        < LogicalClock.counter (clock st'))%Qc
     ∧ (berkeley_is_coordinator st' = Some true ↔ k = 1)
     ∧ (berkeley_is_coordinator st' = Some false ↔ k ≠ 1)
     ∧ (coordinator st' = Some (VStr name) ↔ k = 1))
  ∧ ∃ st',
      register_with_reference false now now_ref registry st
      = (false, st', registry)
      ∧ rank st' = None ∧ berkeley_is_coordinator st' = None
      ∧ LogicalClock.counter (clock st') = 1%Qc.
Proof.
  intros Hname _ st. split.
  - unfold register_with_reference. rewrite create_message_fresh.
    cbn [negb Messaging.service Messaging.data st init server_name clock
         rank coordinator berkeley_is_coordinator].
    unfold ReferenceServer.serve, dict_get. rewrite lookup_insert_eq.
    set (c1 := (LogicalClock.counter LogicalClock.init + 1)%Qc).
    rewrite bool_decide_eq_true_2 by done.
    unfold ReferenceServer.handle_rank_request, dict_get.
    rewrite lookup_insert_ne, lookup_insert_ne, lookup_singleton_eq by done.
    cbn [truthy]. rewrite bool_decide_eq_true_2 by done. cbn [negb].
    set (c2 := LogicalClock.update (ReferenceServer.clock registry) c1).
    destruct (update_exceeds (ReferenceServer.clock registry) c1)
      as [Hc1 _]. fold c2 in Hc1.
    assert (LogicalClock.counter LogicalClock.init < c1)%Qc as Hc0
      by apply Qclt_succ.
    cbn [ReferenceServer.servers ReferenceServer.next_rank
         ReferenceServer.clock ReferenceServer.reference_json
         ReferenceServer.stdout].
    destruct (ReferenceServer.servers registry !! VStr name) as [i|] eqn:Hi.
    + cbn -[LogicalClock.update]. rewrite bool_decide_eq_true_2 by done.
      eexists (ReferenceServer.rank i), _, _. split; [reflexivity|].
      cbn -[LogicalClock.update].
      split; [done|]. split.
      { eexists. split; [apply lookup_insert_eq|done]. }
      split; [done|]. split; [done|].
      assert (LogicalClock.counter c2.2 < LogicalClock.counter c2.2 + 1)%Qc
        as Hc2 by apply Qclt_succ.
      split.
      { apply (Qclt_trans _ c1); [exact Hc0|].
        apply (Qclt_trans _ (LogicalClock.counter c2.2));
          [exact Hc1|exact Hc2]. }
      split.
      { apply update_exceeds. }
      case_bool_decide as Hk.
      * injection Hk as ->. by repeat split.
      * assert (ReferenceServer.rank i ≠ 1) by congruence.
        repeat split; try done; intros; simplify_eq.
    + cbn -[LogicalClock.update]. rewrite bool_decide_eq_true_2 by done.
      eexists (ReferenceServer.next_rank registry), _, _.
      split; [reflexivity|]. cbn -[LogicalClock.update].
      split; [done|]. split.
      { eexists. split; [apply lookup_insert_eq|done]. }
      split; [done|]. split; [done|].
      assert (LogicalClock.counter c2.2 < LogicalClock.counter c2.2 + 1)%Qc
        as Hc2 by apply Qclt_succ.
      split.
      { apply (Qclt_trans _ c1); [exact Hc0|].
        apply (Qclt_trans _ (LogicalClock.counter c2.2));
          [exact Hc1|exact Hc2]. }
      split.
      { apply update_exceeds. }
      case_bool_decide as Hk.
      * injection Hk as ->. by repeat split.
      * assert (ReferenceServer.next_rank registry ≠ 1) by congruence.
        repeat split; try done; intros; simplify_eq.
  - unfold register_with_reference. rewrite create_message_fresh.
    cbn [negb]. eexists. split; [reflexivity|]. done.
Qed.

Lemma registration_gets_registry_rank_witness :
  ∃ st' registry',
    register_with_reference true (Qc_of_Z 5) (Qc_of_Z 6)
      ReferenceServer.init (init "server_a")
    = (true, st', registry')
    ∧ rank st' = Some 1
    ∧ coordinator st' = Some (VStr "server_a").
Proof.
  destruct (registration_gets_registry_rank (Qc_of_Z 5) (Qc_of_Z 6)
              ReferenceServer.init "server_a")
    as [(k & st' & registry' & Hr & Hk & _ & [-> _] & _ & _ & _ & _ & _ & Hc)
        _]; [done| |].
  { exists 0. split; [symmetry; apply Z2Qc_inj_0|lia]. }
  exists st', registry'. split; [exact Hr|]. split; [exact Hk|].
  apply Hc. reflexivity.
Defined.




End coordination.

(** ** Server: the state that replication delivers *)

Section state_replication.
Import ReplicationManager ReplicationServer StateReplication.

Lemma _handle_replicate_merges data now self :
  (_handle_replicate data now self).2
  = if bool_decide (data_type data = VStr "logins") then
      Server (server_name self) (_merge_logins (payload data) (files self))
        (replication_log self
         ++ [LogEntry now (source_server data) (data_type data)
               (length (payload data))])
    else if bool_decide (data_type data = VStr "channels") then
      Server (server_name self) (_merge_channels (payload data) (files self))
        (replication_log self
         ++ [LogEntry now (source_server data) (data_type data)
               (length (payload data))])
    else if bool_decide (data_type data = VStr "messages") then
      Server (server_name self) (_merge_messages (payload data) (files self))
        (replication_log self
         ++ [LogEntry now (source_server data) (data_type data)
               (length (payload data))])
    else self.
Proof. unfold _handle_replicate. by repeat case_bool_decide. Qed.

(** X30: when the three requests of [_replicate_current_state] reach a known
    server (the messages of both having numeric timestamps and clocks):
    every user and every channel of the sender has a record in the files
    of that server afterwards, every message of the sender has its
    identifier in [messages.json], and nothing that the server stored is
    lost: its logins and channels are as they were, before the new ones,
    and its messages are all there. *)
Theorem replicated_state_reaches_peer (server_name : string)
    (now now' : Qc) (st : MessageBoard.t) (peer : t) :
  Forall numeric_keys (messages_json (files peer) ++ MessageBoard.messages st) →
  let peer' :=
    receive (_replicate_current_state server_name now st) now' peer in
  (∀ user, user ∈ MessageBoard.users st →
     ∃ r, r ∈ logins_json (files peer') ∧ r !! "user" = Some user)
  ∧ (∀ channel, channel ∈ MessageBoard.channels st →
       ∃ r, r ∈ channels_json (files peer') ∧ r !! "channel" = Some channel)
  ∧ (∀ m, m ∈ MessageBoard.messages st →
       _get_message_id m ∈ _get_message_id <$> messages_json (files peer'))
  ∧ logins_json (files peer) `prefix_of` logins_json (files peer')
  ∧ channels_json (files peer) `prefix_of` channels_json (files peer')
  ∧ messages_json (files peer) ⊆+ messages_json (files peer')
  ∧ length (replication_log peer') = (length (replication_log peer) + 3)%nat.
Proof.
  intros _ peer'. subst peer'.
  unfold receive, _replicate_current_state. cbn [fmap list_fmap replicate_all].
  rewrite !_handle_replicate_merges. cbn [data_type payload source_server].
  rewrite (bool_decide_eq_true_2 (VStr "logins" = VStr "logins")) by done.
  rewrite (bool_decide_eq_false_2 (VStr "channels" = VStr "logins")) by done.
  rewrite (bool_decide_eq_true_2 (VStr "channels" = VStr "channels"))
    by done.
  rewrite (bool_decide_eq_false_2 (VStr "messages" = VStr "logins")) by done.
  rewrite (bool_decide_eq_false_2 (VStr "messages" = VStr "channels"))
    by done.
  rewrite (bool_decide_eq_true_2 (VStr "messages" = VStr "messages"))
    by done.
  cbn [files replication_log].
  rewrite _merge_messages_again.
  unfold _merge_channels, _merge_logins, field_set.
  cbn [logins_json channels_json messages_json].
  set (key := λ msg : dict, Some (_get_message_id msg)).
  set (users_data := _ <$> elements (MessageBoard.users st)).
  set (channels_data := _ <$> elements (MessageBoard.channels st)).
  destruct (add_new_keeps (λ r : dict, r !! "user") users_data
              (logins_json (files peer))) as [Hlp _].
  destruct (add_new_keeps (λ r : dict, r !! "channel") channels_data
              (channels_json (files peer))) as [Hcp _].
  destruct (add_new_keeps key (MessageBoard.messages st)
              (messages_json (files peer))) as [[added Hmp] _].
  split; [|split; [|split; [|split; [done|split; [done|split]]]]].
  - intros user Huser. apply list_elem_of_omap.
    apply (add_new_covers (λ r : dict, r !! "user")).
    apply list_elem_of_omap. eexists. split.
    + apply list_elem_of_fmap. eexists. split; [reflexivity|].
      by apply elem_of_elements.
    + apply lookup_insert_eq.
  - intros channel Hchannel. apply list_elem_of_omap.
    apply (add_new_covers (λ r : dict, r !! "channel")).
    apply list_elem_of_omap. eexists. split.
    + apply list_elem_of_fmap. eexists. split; [reflexivity|].
      by apply elem_of_elements.
    + apply lookup_insert_eq.
  - intros m Hm. rewrite message_ids_omap.
    eapply elem_of_Permutation_proper;
      [apply omap_Permutation, sort_perm|].
    apply (add_new_covers key). apply list_elem_of_omap. eauto.
  - rewrite sort_perm, Hmp. by apply submseteq_inserts_r.
  - rewrite !length_app. cbn. lia.
Qed.

Lemma replicated_state_reaches_peer_witness :
  let m : dict :=
    {[ "type" := VStr "publish"; "user" := VStr "alice";
       "channel" := VStr "geral"; "message" := VStr "m1";
       "timestamp" := VInt 20; "clock" := VInt 2 ]} in
  let st :=
    MessageBoard.Server {[ VStr "alice" ]} {[ VStr "geral" ]} [m]
      LogicalClock.init 1 [] [] [m] [] in
  let peer' :=
    receive (_replicate_current_state "server_1" (Qc_of_Z 30) st)
      (Qc_of_Z 31) (empty "server_2") in
  ∃ r, r ∈ logins_json (files peer') ∧ r !! "user" = Some (VStr "alice").
Proof.
  intros m st peer'.
  destruct (replicated_state_reaches_peer "server_1" (Qc_of_Z 30)
              (Qc_of_Z 31) st (empty "server_2")) as (Husers & _).
  - repeat constructor. eexists _, _. reflexivity.
  - apply Husers. evaluate.
Defined.

End state_replication.
